(** * Open WebUI pipelines gateway: registry scan, credential check, dispatch

  A shallow embedding of [main.py] (Block A: the pipelines compatibility
  layer, and the [x-api-key] dependency), of [pipelines_list.py] and of
  [pipelines/math_add.py], with the properties of the pipeline registry
  and of the dispatch gateway stated over it; then of the rest of
  [main.py] that computes (the retry helper, the search for an MCP HTTP
  connector, the route paths and the CORS origins), of the id listing of
  [pipelines_list.py] and of [pipelines/time.py] and
  [pipelines/time_unix.py].

  Code that the gateway does not know, a unit of the scanned directory
  or a registered callable, can raise any exception; the [except
  Exception] clauses of the gateway catch the instances of [Exception]
  and let the others through, and both paths are modelled. The
  rendering of a response body belongs to Starlette and to [json]: it
  is a parameter of the gateway. *)

From Stdlib Require Import ZArith Ascii Floats.SpecFloat.
From stdpp Require Import base strings gmap list sorting pretty.

Set Warnings "-register-all".
Local Open Scope Z_scope.

(** ** Python values and exceptions *)

Module Py.

(** IEEE 754 binary64, the carrier of Python's [float]. *)
Definition prec : Z := 53.
Definition emax : Z := 1024.
Abbreviation float64 := spec_float.

(** The Python objects the gateway and its handlers exchange: [None],
    [bool], [int], [float], [str], [list], [tuple] and [dict] (with [str]
    keys, as a request body has them), and [PyObject] for an object of any
    other class (a [set], [bytes], a coroutine, ...), known by its class
    name and its truth value. An instance of a subclass of one of the
    first eight is the value of that class. *)
Inductive value : Type :=
| PyNone
| PyBool (b : bool)
| PyInt (z : Z)
| PyFloat (f : float64)
| PyStr (s : string)
| PyList (l : list value)
| PyTuple (l : list value)
| PyDict (d : list (string * value))
| PyObject (cls : string) (truth : bool).

(** An instance of [Exception], which is what the [except Exception]
    clauses of the sources name: its class and its [str()]. *)
Record Exn : Type := mkExn { exc_type : string; exc_str : string }.

(** A computation that returns or raises an instance of [Exception]. *)
Definition result (A : Type) : Type := Exn + A.
Definition raise {A} (e : Exn) : result A := inl e.
#[global] Instance result_ret : MRet result := λ A a, inr a.
#[global] Instance result_bind : MBind result := λ A B k m,
  match m with inl e => inl e | inr a => k a end.

(** What code that the gateway does not know (a unit of the scanned
    directory, a registered callable) can raise: an instance of
    [Exception], which an [except Exception] clause catches, or an
    instance of another subclass of [BaseException] ([SystemExit],
    [KeyboardInterrupt], ...), which such a clause lets through. *)
Inductive BaseException : Type :=
| Exception (e : Exn)
| NonException (cls : string) (msg : string).

(** A computation that returns or raises anything. *)
Definition outcome (A : Type) : Type := BaseException + A.
#[global] Instance outcome_ret : MRet outcome := λ A a, inr a.
#[global] Instance outcome_bind : MBind outcome := λ A B k m,
  match m with inl e => inl e | inr a => k a end.

(** A computation that raises instances of [Exception] only, among
    those that raise anything. *)
Definition lift {A} (r : result A) : outcome A :=
  match r with inl e => inl (Exception e) | inr a => inr a end.

Definition type_name (v : value) : string :=
  match v with
  | PyNone => "NoneType"
  | PyBool _ => "bool"
  | PyInt _ => "int"
  | PyFloat _ => "float"
  | PyStr _ => "str"
  | PyList _ => "list"
  | PyTuple _ => "tuple"
  | PyDict _ => "dict"
  | PyObject cls _ => cls
  end.

(** Truth value testing, as used by [x or y] and [not x]. *)
Definition truthy (v : value) : bool :=
  match v with
  | PyNone => false
  | PyBool b => b
  | PyInt z => negb (z =? 0)
  | PyFloat f => match f with S754_zero _ => false | _ => true end
  | PyStr s => negb (String.eqb s "")
  | PyList l | PyTuple l => match l with [] => false | _ => true end
  | PyDict d => match d with [] => false | _ => true end
  | PyObject _ t => t
  end.

(** [d.get(key, default)] on a [dict] with [str] keys. *)
Fixpoint dict_get (d : list (string * value)) (key : string) (default : value) : value :=
  match d with
  | [] => default
  | (k, v) :: d' => if String.eqb k key then v else dict_get d' key default
  end.

Definition isinstance_dict (v : value) : bool :=
  match v with PyDict _ => true | _ => false end.

(** [isinstance(x, (int, float))]; [bool] is a subclass of [int]. *)
Definition isinstance_int_float (v : value) : bool :=
  match v with PyBool _ | PyInt _ | PyFloat _ => true | _ => false end.

(** Numbers as arithmetic sees them: a [bool] counts as the [int] 0 or 1. *)
Inductive number : Type :=
| NInt (z : Z)
| NFloat (f : float64).

Definition as_number (v : value) : option number :=
  match v with
  | PyBool b => Some (NInt (Z.b2z b))
  | PyInt z => Some (NInt z)
  | PyFloat f => Some (NFloat f)
  | _ => None
  end.

Definition of_number (n : number) : value :=
  match n with NInt z => PyInt z | NFloat f => PyFloat f end.

(** [float(z)] for an [int]: round to nearest even, [OverflowError] when
    the result does not fit a binary64. *)
Definition float_of_int (z : Z) : result float64 :=
  match binary_normalize prec emax z 0 false with
  | S754_infinity _ =>
      raise (mkExn "OverflowError" "int too large to convert to float")
  | f => mret f
  end.

Definition float (n : number) : result float64 :=
  match n with NInt z => float_of_int z | NFloat f => mret f end.

(** The [+] of two numbers. *)
Definition add (a b : number) : result number :=
  match a, b with
  | NInt x, NInt y => mret (NInt (x + y))
  | NInt x, NFloat g => f ← float_of_int x; mret (NFloat (SFadd prec emax f g))
  | NFloat f, NInt y => g ← float_of_int y; mret (NFloat (SFadd prec emax f g))
  | NFloat f, NFloat g => mret (NFloat (SFadd prec emax f g))
  end.

(** [sum(values)]: the items added left to right onto the [int] 0; an
    item that is not a number makes [+] raise [TypeError].
    (CPython 3.12 accumulates [float] items with a compensated
    algorithm; on lists of [int] and [bool] it is this fold.) *)
Fixpoint sum_from (acc : number) (values : list value) : result number :=
  match values with
  | [] => mret acc
  | x :: values' =>
      match as_number x with
      | Some n => acc' ← add acc n; sum_from acc' values'
      | None =>
          raise (mkExn "TypeError"
                   ("unsupported operand type(s) for +: '" +:+ type_name (of_number acc)
                      +:+ "' and '" +:+ type_name x +:+ "'"))
      end
  end.

Definition sum (values : list value) : result number := sum_from (NInt 0) values.

End Py.

Import Py.

(** ** pipelines/math_add.py *)

Module MathAdd.

Definition id : string := "math_add".
Definition name : string := "math_add".

Definition error_msg : value :=
  PyDict [("error", PyStr "body.values must be a list of numbers")].

(** [Pipeline.pipe(self, user_message=None, model_id=None, messages=None, body=None)] *)
Definition pipe (body : value) : result value :=
  let body := if truthy body then body else PyDict [] in
  match body with
  | PyDict d =>
      let values := dict_get d "values" (PyList []) in
      match values with
      | PyList l =>
          if forallb isinstance_int_float l then
            s ← sum l; f ← float s; mret (PyDict [("sum", PyFloat f)])
          else mret error_msg
      | _ => mret error_msg
      end
  | other =>
      raise (mkExn "AttributeError"
               ("'" +:+ type_name other +:+ "' object has no attribute 'get'"))
  end.

End MathAdd.

(** ** The HTTP layer (FastAPI / Starlette), as the sources use it *)

Module Http.

(** [starlette.requests.Request]: the headers, by lower-case name. *)
Record Request : Type := mkRequest { headers : gmap string string }.

(** [fastapi.HTTPException(status_code, detail)] *)
Record HTTPException : Type := mkHTTPException { status_code : Z; detail : string }.

(** A response: its status code and the content its JSON body renders. *)
Record Response : Type := mkResponse { status : Z; content : value }.

(** A [str] of ASCII characters. *)
Fixpoint ascii_text (s : string) : bool :=
  match s with
  | "" => true
  | String c s' => (nat_of_ascii c <? 128)%nat && ascii_text s'
  end.

(** What the rendering of a response body does with a content: [None]
    when it gives the bytes of the body, else the exception it raises.
    Starlette's [JSONResponse.render] is
    [json.dumps(content, ensure_ascii=False, allow_nan=False, ...)]
    followed by [.encode("utf-8")]; it belongs to the libraries, and the
    gateway is modelled for every such function. All that the model
    takes of it is that a dict of one ASCII key and one ASCII [str]
    renders. *)
Record Render : Type := mkRender {
  rendering :> value → option Exn;
  renders_ascii_text :
    ∀ k s, ascii_text k = true → ascii_text s = true →
           rendering (PyDict [(k, PyStr s)]) = None;
}.

(** [JSONResponse(status_code=.., content=..)]: the constructor renders
    the body, so the call raises where the rendering does. *)
Definition JSONResponse (render : Render) (status_code : Z) (content : value)
  : result Response :=
  match render content with
  | Some e => raise e
  | None => mret (mkResponse status_code content)
  end.

(** What the server gets from the application for a request: a
    response, or an exception that nothing in the application caught. *)
Inductive Served : Type :=
| Answered (response : Response)
| Escaped (cls : string) (msg : string).

Definition status_of (served : Served) : option Z :=
  match served with
  | Answered response => Some (status response)
  | Escaped _ _ => None
  end.

(** FastAPI's handler for a raised [HTTPException]. *)
Definition http_exception_handler (exc : HTTPException) : Response :=
  mkResponse (status_code exc) (PyDict [("detail", PyStr (detail exc))]).

Definition Unauthorized : HTTPException := mkHTTPException 401 "Unauthorized".

(** The process environment and [os.getenv(key, default)]. *)
Definition getenv (environ : gmap string string) (key default : string) : string :=
  match environ !! key with Some v => v | None => default end.

End Http.

Import Http.

(** ** pipelines_list.py: the per-request credential check *)

Module PipelinesList.

Definition API_KEY_ENV : string := "API_KEY".

(** [require_api_key()._dep(request)], under the environment of the
    moment of the request. *)
Definition require_api_key (environ : gmap string string) (request : Request)
  : HTTPException + unit :=
  let api_key_configured := getenv environ API_KEY_ENV "" in
  let provided := headers request !! "x-api-key" in
  if negb (truthy (PyStr api_key_configured))
     || negb (bool_decide (provided = Some api_key_configured))
  then inl Unauthorized
  else inr ().

End PipelinesList.

(** ** main.py *)

Module Main.

(** *** Strings and paths *)

(** [s.endswith(suffix)] *)
Definition endswith (s suffix : string) : bool :=
  let n := String.length s in
  let k := String.length suffix in
  (k <=? n)%nat && String.eqb (String.substring (n - k) k s) suffix.

(** [s[:-3]] *)
Definition slice_to_minus3 (s : string) : string :=
  String.substring 0 (String.length s - 3) s.

(** [os.path.join(a, b)] (posixpath) *)
Definition path_join (a b : string) : string :=
  if String.prefix "/" b then b
  else if String.eqb a "" || endswith a "/" then a +:+ b
  else a +:+ "/" +:+ b.

(** *** Module state *)

(** A registered callable, applied as [callable(body=payload)]. *)
Definition Handler : Type := value → outcome value.

(** A [pipe] that raises instances of [Exception] only, as a callable
    of the registry. *)
Definition handler (pipe : value → result value) : Handler := λ body, lift (pipe body).

(** The entries of [_PIPELINES_REGISTRY]: dicts with the keys
    ["module"], ["file"] and ["callable"]. *)
Record Entry : Type := mkEntry { module : string; file : string; callable : Handler }.

Record LogRecord : Type := mkLogRecord { levelname : string; message : string }.

(** The globals of the module that the pipelines layer reads and writes,
    what [logger] has emitted (oldest first), and, as a ghost field, the
    calls made so far to registered callables. *)
Record State : Type := mkState {
  API_KEY : string;
  _PIPELINES_REGISTRY : gmap string Entry;
  logged : list LogRecord;
  invoked : list (string * value);
}.

Definition set_registry (f : gmap string Entry → gmap string Entry) (st : State) : State :=
  mkState (API_KEY st) (f (_PIPELINES_REGISTRY st)) (logged st) (invoked st).

Definition log (levelname message : string) (st : State) : State :=
  mkState (API_KEY st) (_PIPELINES_REGISTRY st)
    (logged st ++ [mkLogRecord levelname message]) (invoked st).

Definition record_call (name : string) (body : value) (st : State) : State :=
  mkState (API_KEY st) (_PIPELINES_REGISTRY st) (logged st) (invoked st ++ [(name, body)]).

(** The state right after the module is imported under [environ]. *)
Definition load (environ : gmap string string) : State :=
  mkState (getenv environ "API_KEY" "changeme") ∅ [] [].

(** *** The credential check *)

Record APIKeyHeader : Type := mkAPIKeyHeader { api_key : string }.

(** [api_dependency()._dep(request)]; [configured] is the global
    [API_KEY]. *)
Definition api_dependency (configured : string) (request : Request)
  : HTTPException + APIKeyHeader :=
  match headers request !! "x-api-key" with
  | None => inl Unauthorized
  | Some key =>
      if negb (truthy (PyStr key)) || negb (String.eqb key configured)
      then inl Unauthorized
      else inr (mkAPIKeyHeader key)
  end.

(** *** Source units of the scanned directory *)

(** An attribute value as [or] and [str()] observe it. *)
Record PyAttr : Type := mkPyAttr { attr_truthy : bool; attr_str : string }.

Definition attr_of_str (s : string) : PyAttr := mkPyAttr (truthy (PyStr s)) s.

(** [getattr(obj, a, None) or rest] *)
Definition getattr_or (a : option PyAttr) (rest : PyAttr) : PyAttr :=
  match a with
  | Some x => if attr_truthy x then x else rest
  | None => rest
  end.

Inductive PipeAttr : Type :=
| Callable (pipe_fn : Handler)
| NotCallable.

(** An instance of a unit's [Pipeline] class: its [pipe], [id] and
    [name] attributes, where it has them. *)
Record PipelineObj : Type := mkPipelineObj {
  obj_pipe : option PipeAttr;
  obj_id : option PyAttr;
  obj_name : option PyAttr;
}.

(** A loaded module: [Pipeline] is [None] when the module has no such
    attribute, else what calling it does. *)
Record ModuleObj : Type := mkModuleObj { Pipeline : option (outcome PipelineObj) }.

(** A directory entry: its name, whether [spec_from_file_location]
    gives a spec with a loader, and what [exec_module] does. *)
Record SourceUnit : Type := mkSourceUnit {
  fname : string;
  spec_loader : bool;
  exec_module : outcome ModuleObj;
}.

Record FileSystem : Type := mkFileSystem {
  isdir : string → bool;
  listdir : string → list SourceUnit;
}.

(** *** Discovery *)

Definition pipeline_id (u : SourceUnit) (obj : PipelineObj) : string :=
  attr_str (getattr_or (obj_id obj)
              (getattr_or (obj_name obj) (attr_of_str (slice_to_minus3 (fname u))))).

(** The [try] block of the loop of [_discover_pipelines]: [None] is
    [continue], [Some (pid, entry)] the assignment to the registry. *)
Definition try_load (base_dir : string) (u : SourceUnit) : outcome (option (string * Entry)) :=
  let fpath := path_join base_dir (fname u) in
  let mod_name := "pipelines." +:+ slice_to_minus3 (fname u) in
  if negb (spec_loader u) then mret None
  else
    mod_ ← exec_module u;
    match Pipeline mod_ with
    | None => mret None
    | Some PipelineCls =>
        obj ← PipelineCls;
        match obj_pipe obj with
        | Some (Callable pipe_fn) =>
            mret (Some (pipeline_id u obj, mkEntry mod_name fpath pipe_fn))
        | _ => mret None
        end
    end.

(** One iteration of the loop: the state it leaves, and whether it
    goes on to the next entry ([inr ()]) or an exception leaves the loop.
    The [except Exception] clause turns an instance of [Exception] into
    a warning; any other exception goes through it. *)
Definition load_unit (base_dir : string) (st : State) (u : SourceUnit)
  : outcome unit * State :=
  if negb (endswith (fname u) ".py") then (inr (), st)
  else
    match try_load base_dir u with
    | inr None => (inr (), st)
    | inr (Some (pid, entry)) => (inr (), set_registry (insert pid entry) st)
    | inl (Exception e) =>
        (inr (),
         log "WARNING"
           ("Skipping pipeline " +:+ path_join base_dir (fname u)
              +:+ " due to load error: " +:+ exc_str e) st)
    | inl (NonException cls msg) => (inl (NonException cls msg), st)
    end.

(** [for x in l: body], where an exception that leaves [body] leaves
    the loop. *)
Fixpoint for_each {A} (body : State → A → outcome unit * State) (st : State) (l : list A)
  : outcome unit * State :=
  match l with
  | [] => (inr (), st)
  | x :: l' =>
      match body st x with
      | (inr _, st') => for_each body st' l'
      | (inl e, st') => (inl e, st')
      end
  end.

(** [_discover_pipelines()]: the state it leaves, and whether it returns
    or an exception leaves it. *)
Definition _discover_pipelines (fs : FileSystem) (base_dir : string) (st : State)
  : outcome unit * State :=
  let st := set_registry (λ _, ∅) st in
  if negb (truthy (PyStr base_dir)) || negb (isdir fs base_dir) then
    (inr (), log "INFO" ("PIPELINES_DIR not present or not a directory: " +:+ base_dir) st)
  else for_each (load_unit base_dir) st (listdir fs base_dir).

(** The states a reader of the module globals can meet while the scan
    runs: the state after [clear()], then the state after each iteration
    of the loop that ran. *)
Fixpoint loop_states {A} (body : State → A → outcome unit * State) (st : State) (l : list A)
  : list State :=
  match l with
  | [] => []
  | x :: l' =>
      match body st x with
      | (inr _, st') => st' :: loop_states body st' l'
      | (inl _, st') => [st']
      end
  end.

Definition _discover_pipelines_states (fs : FileSystem) (base_dir : string) (st : State)
  : list State :=
  let st := set_registry (λ _, ∅) st in
  if negb (truthy (PyStr base_dir)) || negb (isdir fs base_dir) then
    [st; log "INFO" ("PIPELINES_DIR not present or not a directory: " +:+ base_dir) st]
  else st :: loop_states (load_unit base_dir) st (listdir fs base_dir).

(** *** The routes *)

(** What leaves a path operation that does not return: an
    [HTTPException], or an exception that is not an instance of
    [Exception] and that no clause caught. *)
Inductive Raised : Type :=
| Http (exc : HTTPException)
| Uncaught (cls : string) (msg : string).

(** A path operation: it reads and writes the module state, and returns
    or raises. *)
Definition Gw (A : Type) : Type := State → (Raised + A) * State.

#[global] Instance gw_ret : MRet Gw := λ A a st, (inr a, st).
#[global] Instance gw_bind : MBind Gw := λ A B k m st,
  match m st with
  | (inl exc, st') => (inl exc, st')
  | (inr a, st') => k a st'
  end.
Definition gw_raise {A} (exc : HTTPException) : Gw A := λ st, (inl (Http exc), st).
Definition gw_uncaught {A} (cls msg : string) : Gw A := λ st, (inl (Uncaught cls msg), st).
Definition gw_get : Gw State := λ st, (inr st, st).
Definition gw_modify (f : State → State) : Gw unit := λ st, (inr (), f st).

(** [Depends(api_dependency())] *)
Definition Depends_api_dependency (request : Request) : Gw APIKeyHeader :=
  λ st,
    match api_dependency (API_KEY st) request with
    | inl exc => (inl (Http exc), st)
    | inr key => (inr key, st)
    end.

(** [sorted] on a list of [str]: ascending by code point. *)
Definition sorted (l : list string) : list string := merge_sort String.le l.

(** [list(d.keys())] *)
Definition keys (d : gmap string Entry) : list string := (map_to_list d).*1.

Definition _pipelines_list : Gw value :=
  st ← gw_get;
  mret (PyDict [("pipelines", PyList (PyStr <$> sorted (keys (_PIPELINES_REGISTRY st))))]).

(** The [except Exception] clause of [_pipelines_call] guards the call
    of the callable and the construction of the response; an exception
    that is not an instance of [Exception] goes through it, unlogged. *)
Definition _pipelines_call (render : Render) (name : string)
    (payload : option (list (string * value))) : Gw Response :=
  let payload :=
    match payload with
    | Some d => if truthy (PyDict d) then d else []
    | None => []
    end in
  st ← gw_get;
  match _PIPELINES_REGISTRY st !! name with
  | None => gw_raise (mkHTTPException 404 ("pipeline '" +:+ name +:+ "' not found"))
  | Some entry =>
      gw_modify (record_call name (PyDict payload));;
      match
        result ← callable entry (PyDict payload);
        lift (if isinstance_dict result then JSONResponse render 200 result
              else JSONResponse render 200 (PyDict [("result", result)]))
      with
      | inr response => mret response
      | inl (Exception e) =>
          gw_modify (log "ERROR"
                       ("Pipeline '" +:+ name +:+ "' execution error: " +:+ exc_str e));;
          gw_raise (mkHTTPException 500 (exc_str e))
      | inl (NonException cls msg) => gw_uncaught cls msg
      end
  end.

(** The guarded routes of the pipelines layer, as the router binds
    them: [name] is the path segment after [/pipelines/]. *)
Inductive Route : Type :=
| GET_pipelines
| POST_pipelines (name : string) (payload : option (list (string * value))).

(** The application on one request: the dependency runs first, then
    the path operation; a returned dict is sent with status 200, a
    raised [HTTPException] goes through FastAPI's handler, and any
    other exception that leaves the path operation leaves the
    application. *)
Definition app (render : Render) (route : Route) (request : Request) (st : State)
  : Served * State :=
  let operation : Gw Response :=
    _ ← Depends_api_dependency request;
    match route with
    | GET_pipelines => body ← _pipelines_list; mret (mkResponse 200 body)
    | POST_pipelines name payload => _pipelines_call render name payload
    end in
  match operation st with
  | (inr response, st') => (Answered response, st')
  | (inl (Http exc), st') => (Answered (http_exception_handler exc), st')
  | (inl (Uncaught cls msg), st') => (Escaped cls msg, st')
  end.

End Main.

(** ** main.py: the retry helper *)

Module Retry.

(** [needle in haystack] on [str]. *)
Fixpoint contains (needle haystack : string) : bool :=
  String.prefix needle haystack
  || match haystack with
     | "" => false
     | String _ rest => contains needle rest
     end.

(** An exception raised by [call_fn]: its [str()] and, when it has an
    [exceptions] attribute, the [str()] of each of its members. *)
Record Fault : Type := mkFault { fault_str : string; exceptions : option (list string) }.

(** The value of the variable [transient] once the [except] block has
    looked at the exception. *)
Definition transient (e : Fault) : bool :=
  let txt := fault_str e in
  let transient :=
    contains "notifications/initialized" txt
    || contains "JSONRPCMessage" txt
    || contains "TaskGroup" txt in
  if negb transient then
    match exceptions e with
    | Some subs =>
        existsb (λ s, contains "notifications/initialized" s || contains "JSONRPCMessage" s) subs
    | None => false
    end
  else transient.

(** What a run does besides returning: the calls to [call_fn], the
    warnings it logs and the sleeps it awaits. *)
Inductive Event : Type :=
| Call (attempt : nat)
| Warning (message : string)
| Sleep (sleep_s : float64).

Definition retrying (desc : string) (attempt : nat) (retries : Z) : string :=
  "Transient error on " +:+ desc +:+ "; retrying ("
    +:+ pretty (S attempt) +:+ "/" +:+ pretty retries +:+ ")".

(** The loop [for attempt in range(retries + 1)] from [attempt] on, with
    [remaining] iterations to go; [call_fn] is given by what its
    successive calls do. Leaving the loop returns [None]. *)
Fixpoint attempts {A} (call_fn : nat → Fault + A) (desc : string) (retries : Z)
    (sleep_s : float64) (attempt remaining : nat) : list Event * (Fault + option A) :=
  match remaining with
  | O => ([], inr None)
  | S remaining' =>
      match call_fn attempt with
      | inr a => ([Call attempt], inr (Some a))
      | inl e =>
          if (Z.of_nat attempt <? retries) && transient e then
            let rest := attempts call_fn desc retries sleep_s (S attempt) remaining' in
            (Call attempt :: Warning (retrying desc attempt retries) :: Sleep sleep_s :: rest.1,
             rest.2)
          else ([Call attempt], inl e)
      end
  end.

(** [retry_jsonrpc(call_fn, desc, retries=1, sleep_s=0.1)] *)
Definition retry_jsonrpc {A} (call_fn : nat → Fault + A) (desc : string) (retries : Z)
    (sleep_s : float64) : list Event * (Fault + option A) :=
  attempts call_fn desc retries sleep_s 0 (Z.to_nat (retries + 1)).

End Retry.

(** ** main.py: the MCP HTTP connector *)

Module Connector.

(** A module as [hasattr] and [getattr] see it: the names of its
    attributes, and its [__file__] when it has one. *)
Record PyModule : Type := mkPyModule { dir : list string; __file__ : option string }.

Definition hasattr (m : PyModule) (name : string) : bool := bool_decide (name ∈ dir m).

(** The attribute [name] of the module imported as [owner]. *)
Record Attr : Type := mkAttr { owner : string; name : string }.

(** What [resolve_http_connector] returns: the connector, its label, the
    file of its module and the version of [mcp]. *)
Record Resolved : Type := mkResolved {
  connector : Attr;
  connector_name : string;
  module_path : string;
  mcp_version : string;
}.

(** What the search notes of a module that gave no connector: its
    sorted attribute names, or the text of the import error. *)
Inductive Info : Type :=
| Names (names : list string)
| ImportFailed (text : string).

(** The [ImportError] raised when nothing was found, by the parts its
    message is formatted from. *)
Record NoConnector : Type := mkNoConnector {
  installed_version : string;
  candidates : list (string * Info);
}.

Section importer.

(** [import_module]: the module of that name, or the exception the
    import raises. [version] is [importlib.metadata.version("mcp")],
    [None] when the package is not found or the lookup fails. *)
Variable import_module : string → Exn + PyModule.
Variable version : option string.

Definition getattr_file (m : PyModule) : string :=
  match __file__ m with Some f => f | None => "<unknown>" end.

Definition resolve_http_connector : NoConnector + Resolved :=
  let mcp_version := match version with Some v => v | None => "unknown" end in
  let found (owner : string) (m : PyModule) (name label : string) : NoConnector + Resolved :=
    inr (mkResolved (mkAttr owner name) label (getattr_file m) mcp_version) in
  let third (candidates : list (string * Info)) : NoConnector + Resolved :=
    match import_module "mcp.client.http" with
    | inr m =>
        if hasattr m "connect" then found "mcp.client.http" m "connect" "http.connect"
        else
          inl (mkNoConnector mcp_version
                 (candidates ++ [("mcp.client.http", Names (Main.sorted (dir m)))]))
    | inl e =>
        inl (mkNoConnector mcp_version
               (candidates ++ [("mcp.client.http (import error)", ImportFailed (exc_str e))]))
    end in
  let second (candidates : list (string * Info)) : NoConnector + Resolved :=
    match import_module "mcp.client.http.streamable" with
    | inr m =>
        if hasattr m "connect"
        then found "mcp.client.http.streamable" m "connect" "http.streamable.connect"
        else third (candidates ++ [("mcp.client.http.streamable", Names (Main.sorted (dir m)))])
    | inl e =>
        third (candidates
                 ++ [("mcp.client.http.streamable (import error)", ImportFailed (exc_str e))])
    end in
  match import_module "mcp.client.streamable_http" with
  | inr m =>
      if hasattr m "connect"
      then found "mcp.client.streamable_http" m "connect" "streamable_http.connect"
      else if hasattr m "connect_streamable_http"
      then found "mcp.client.streamable_http" m "connect_streamable_http"
             "streamable_http.connect_streamable_http"
      else if hasattr m "streamablehttp_client"
      then found "mcp.client.streamable_http" m "streamablehttp_client"
             "streamable_http.streamablehttp_client"
      else if hasattr m "create_mcp_http_client"
      then found "mcp.client.streamable_http" m "create_mcp_http_client"
             "streamable_http.create_mcp_http_client"
      else second [("mcp.client.streamable_http", Names (Main.sorted (dir m)))]
  | inl e =>
      second [("mcp.client.streamable_http (import error)", ImportFailed (exc_str e))]
  end.

Definition _resolve_alt_http_connector : option Attr :=
  let second : option Attr :=
    match import_module "mcp.client.http" with
    | inr m => if hasattr m "connect" then Some (mkAttr "mcp.client.http" "connect") else None
    | inl _ => None
    end in
  match import_module "mcp.client.http.streamable" with
  | inr m =>
      if hasattr m "connect" then Some (mkAttr "mcp.client.http.streamable" "connect")
      else second
  | inl _ => second
  end.

End importer.

End Connector.

(** ** main.py: route paths and CORS origins *)

Module Config.

(** [s.rstrip("/")] *)
Fixpoint rstrip_slash (s : string) : string :=
  match s with
  | "" => ""
  | String c s' =>
      match rstrip_slash s' with
      | "" => if Ascii.eqb c "/"%char then "" else String c ""
      | rest => String c rest
      end
  end.

(** [PATH_PREFIX = os.getenv("PATH_PREFIX", "/")] *)
Definition PATH_PREFIX (environ : gmap string string) : string :=
  getenv environ "PATH_PREFIX" "/".

(** The path every route but [/] is mounted at:
    [f"{PATH_PREFIX.rstrip('/')}<suffix>" if PATH_PREFIX != "/" else "<suffix>"]. *)
Definition route (PATH_PREFIX suffix : string) : string :=
  if negb (String.eqb PATH_PREFIX "/") then rstrip_slash PATH_PREFIX +:+ suffix else suffix.

Definition docs_url (PATH_PREFIX : string) : string := route PATH_PREFIX "/docs".
Definition openapi_url (PATH_PREFIX : string) : string := route PATH_PREFIX "/openapi.json".

(** [attach_pipelines_routes] writes the test the other way round. *)
Definition route_list (PATH_PREFIX : string) : string :=
  if String.eqb PATH_PREFIX "/" then "/pipelines"
  else rstrip_slash PATH_PREFIX +:+ "/pipelines".



Section whitespace.

(** [str.isspace] on one character. *)
Variable isspace : Ascii.ascii → bool.

Fixpoint lstrip (s : string) : string :=
  match s with
  | "" => ""
  | String c s' => if isspace c then lstrip s' else s
  end.

Fixpoint rstrip (s : string) : string :=
  match s with
  | "" => ""
  | String c s' =>
      match rstrip s' with
      | "" => if isspace c then "" else String c ""
      | rest => String c rest
      end
  end.

(** [s.strip()] *)
Definition strip (s : string) : string := rstrip (lstrip s).

(** [s.split(",")] *)
Fixpoint split_comma (s : string) : list string :=
  match s with
  | "" => [""]
  | String c s' =>
      if Ascii.eqb c ","%char then "" :: split_comma s'
      else
        match split_comma s' with
        | piece :: pieces => String c piece :: pieces
        | [] => [String c ""]
        end
  end.

(** [CORS_ALLOWED_ORIGINS =
     [o.strip() for o in os.getenv("CORS_ALLOWED_ORIGINS", "").split(",") if o.strip()]] *)
Definition CORS_ALLOWED_ORIGINS (environ : gmap string string) : list string :=
  strip <$> List.filter (λ o, truthy (PyStr (strip o)))
              (split_comma (getenv environ "CORS_ALLOWED_ORIGINS" "")).

(** [create_app] adds the CORS middleware [if CORS_ALLOWED_ORIGINS]. *)
Definition cors_middleware (environ : gmap string string) : option (list string) :=
  match CORS_ALLOWED_ORIGINS environ with
  | [] => None
  | allow_origins => Some allow_origins
  end.

End whitespace.

End Config.

(** ** pipelines_list.py: the listing of pipeline ids *)

Module PipelineIds.

(** [sep in s] for one character. *)
Fixpoint has_char (sep : ascii) (s : string) : bool :=
  match s with
  | "" => false
  | String c s' => Ascii.eqb c sep || has_char sep s'
  end.

(** [p[p.rfind(sep) + 1:]] when [sep] occurs in [p]. *)
Fixpoint after_last (sep : ascii) (p : string) : option string :=
  match p with
  | "" => None
  | String c p' =>
      match after_last sep p' with
      | Some rest => Some rest
      | None => if Ascii.eqb c sep then Some p' else None
      end
  end.

(** [p[:p.rfind(sep)]] when [sep] occurs in [p]. *)
Fixpoint before_last (sep : ascii) (p : string) : option string :=
  match p with
  | "" => None
  | String c p' =>
      match before_last sep p' with
      | Some root => Some (String c root)
      | None => if Ascii.eqb c sep then Some "" else None
      end
  end.

(** [os.path.basename(p)] *)
Definition basename (p : string) : string :=
  match after_last "/" p with
  | Some rest => rest
  | None => p
  end.

Fixpoint all_dots (s : string) : bool :=
  match s with
  | "" => true
  | String c s' => Ascii.eqb c "." && all_dots s'
  end.

(** [os.path.splitext(p)[0]]: [p] is cut at its last dot when that dot
    comes after the last slash and after a character of the file name
    that is not a dot. *)
Definition splitext_root (p : string) : string :=
  match before_last "." p, after_last "." p with
  | Some root, Some ext =>
      if has_char "/" ext then p
      else if all_dots (basename root) then p
      else root
  | _, _ => p
  end.

(** [_discover_pipeline_ids()]; [glob] is [glob.glob] on this file
    system, the paths that match or the exception it raises. *)
Definition _discover_pipeline_ids (environ : gmap string string)
    (glob : string → result (list string)) : list string :=
  let base_dir := getenv environ "PIPELINES_DIR" "./pipelines" in
  let ids :=
    match glob (Main.path_join base_dir "*.json") with
    | inr paths =>
        omap (λ p, let name := splitext_root (basename p) in
                   if truthy (PyStr name) then Some name else None) paths
    | inl _ => []
    end in
  Main.sorted ids.

(** [GET /pipelines] of this router, behind [require_api_key]. *)
Definition list_pipelines (environ : gmap string string)
    (glob : string → result (list string)) (request : Request)
    : HTTPException + list string :=
  match PipelinesList.require_api_key environ request with
  | inl exc => inl exc
  | inr _ => inr (_discover_pipeline_ids environ glob)
  end.

End PipelineIds.

Import Main.

(** ** Vocabulary of the properties *)

(** The request carries the configured secret, and there is one. *)
Definition authorized (st : State) (request : Request) : Prop :=
  headers request !! "x-api-key" = Some (API_KEY st) ∧ API_KEY st ≠ "".

(** The [body] a registered callable receives: [payload or {}]. *)
Definition body_of (payload : option (list (string * value))) : value :=
  PyDict match payload with
         | Some d => if truthy (PyDict d) then d else []
         | None => []
         end.

(** The content of the response for a value the callable returned:
    the value itself when it is a dict, else the value under
    ["result"]. *)
Definition response_content (v : value) : value :=
  if isinstance_dict v then v else PyDict [("result", v)].

(** A name that the path [/pipelines/{name}] binds: one segment of a
    path, not empty and without [/]. *)
Definition path_segment (name : string) : Prop :=
  name ≠ "" ∧ PipelineIds.has_char "/" name = false.

(** [key in d] and [d[key]] on a [dict] with [str] keys. *)
Fixpoint dict_lookup (d : list (string * value)) (key : string) : option value :=
  match d with
  | [] => None
  | (k, v) :: d' => if String.eqb k key then Some v else dict_lookup d' key
  end.

(** A ["values"] entry that is not a list of numbers. *)
Definition invalid_values (v : value) : Prop :=
  match v with
  | PyList l => ∃ x, x ∈ l ∧ isinstance_int_float x = false
  | _ => True
  end.

(** A valid unit: a [.py] file that loads, has the [Pipeline] marker,
    instantiates, and whose instance has a callable [pipe]. *)
Definition valid_unit (u : SourceUnit) : option (PipelineObj * Handler) :=
  if endswith (fname u) ".py" && spec_loader u then
    match exec_module u with
    | inr m =>
        match Pipeline m with
        | Some (inr obj) =>
            match obj_pipe obj with
            | Some (Callable pipe_fn) => Some (obj, pipe_fn)
            | _ => None
            end
        | _ => None
        end
    | inl _ => None
    end
  else None.

(** What a [.py] unit raises while it is loaded, if anything. *)
Definition load_raises (u : SourceUnit) : option BaseException :=
  if endswith (fname u) ".py" && spec_loader u then
    match exec_module u with
    | inl e => Some e
    | inr m => match Pipeline m with Some (inl e) => Some e | _ => None end
    end
  else None.

(** The instance of [Exception] a [.py] unit raises while it is loaded,
    if any. *)
Definition load_fault (u : SourceUnit) : option Exn :=
  match load_raises u with Some (Exception e) => Some e | _ => None end.

(** The exception outside [Exception] a [.py] unit raises while it is
    loaded, if any: its class and its [str()]. *)
Definition load_exit (u : SourceUnit) : option (string * string) :=
  match load_raises u with Some (NonException cls msg) => Some (cls, msg) | _ => None end.

(** The entries of a listing that the loop of the scan gets to: all of
    them, or those up to the first one that raises outside [Exception]. *)
Fixpoint units_run (l : list SourceUnit) : list SourceUnit :=
  match l with
  | [] => []
  | u :: l' => match load_exit u with Some _ => [u] | None => u :: units_run l' end
  end.

(** The exception that ends the scan of a listing, if one does: the
    first that a unit raises outside [Exception]. *)
Fixpoint scan_exit (l : list SourceUnit) : option (string * string) :=
  match l with
  | [] => None
  | u :: l' => match load_exit u with Some exit => Some exit | None => scan_exit l' end
  end.

(** The ways a [.py] unit fails to be a handler without ending the
    scan. *)
Inductive failing (u : SourceUnit) : Prop :=
| raises_in_exec_module e :
    exec_module u = inl (Exception e) → failing u
| raises_in_constructor m e :
    exec_module u = inr m → Pipeline m = Some (inl (Exception e)) → failing u
| lacks_marker m :
    exec_module u = inr m → Pipeline m = None → failing u
| lacks_callable_pipe m obj :
    exec_module u = inr m → Pipeline m = Some (inr obj) →
    (∀ pipe_fn, obj_pipe obj ≠ Some (Callable pipe_fn)) → failing u.

Definition entry_of (base_dir : string) (u : SourceUnit) (pipe_fn : Handler) : Entry :=
  mkEntry ("pipelines." +:+ slice_to_minus3 (fname u)) (path_join base_dir (fname u)) pipe_fn.

(** Last write wins: a valid unit takes the key of its id, any other
    unit leaves the map alone. *)
Definition register (base_dir : string) (reg : gmap string Entry) (u : SourceUnit)
  : gmap string Entry :=
  match valid_unit u with
  | Some (obj, pipe_fn) => <[pipeline_id u obj := entry_of base_dir u pipe_fn]> reg
  | None => reg
  end.

Definition registry_of (base_dir : string) (l : list SourceUnit) : gmap string Entry :=
  foldl (register base_dir) ∅ l.

Definition skip_warning (base_dir : string) (u : SourceUnit) : list LogRecord :=
  match load_fault u with
  | Some e =>
      [mkLogRecord "WARNING"
         ("Skipping pipeline " +:+ path_join base_dir (fname u)
            +:+ " due to load error: " +:+ exc_str e)]
  | None => []
  end.

(** What [getattr(obj, a, None) or ...] keeps of an attribute: its
    [str()] when the instance has it and it is truthy. *)
Definition truthy_attr (a : option PyAttr) : option string :=
  match a with
  | Some x => if attr_truthy x then Some (attr_str x) else None
  | None => None
  end.

(** The derived id of a unit: the [str()] of the [id] attribute if the
    instance has one and it is truthy, else of the [name] attribute if
    the instance has one and it is truthy, else the base filename. *)
Definition derived_id (u : SourceUnit) (obj : PipelineObj) : string :=
  match truthy_attr (obj_id obj) with
  | Some s => s
  | None =>
      match truthy_attr (obj_name obj) with
      | Some s => s
      | None => slice_to_minus3 (fname u)
      end
  end.

(** The derived id read by presence of the attributes alone: [id] if the
    instance has one, else [name] if it has one, else the base filename. *)
Definition id_by_presence (u : SourceUnit) (obj : PipelineObj) : string :=
  match obj_id obj with
  | Some a => attr_str a
  | None =>
      match obj_name obj with
      | Some a => attr_str a
      | None => slice_to_minus3 (fname u)
      end
  end.

Definition register_by_presence (base_dir : string) (reg : gmap string Entry) (u : SourceUnit)
  : gmap string Entry :=
  match valid_unit u with
  | Some (obj, pipe_fn) => <[id_by_presence u obj := entry_of base_dir u pipe_fn]> reg
  | None => reg
  end.

Definition registry_by_presence (base_dir : string) (l : list SourceUnit) : gmap string Entry :=
  foldl (register_by_presence base_dir) ∅ l.

(** The exception [float()] raises on an [int] beyond the floats. *)
Definition overflow_error : Exn := mkExn "OverflowError" "int too large to convert to float".

(** The value of an [int] or [bool] item in a sum. *)
Definition int_value (v : value) : Z :=
  match as_number v with Some (NInt z) => z | _ => 0 end.


Definition is_call (ev : Retry.Event) : bool :=
  match ev with Retry.Call _ => true | _ => false end.

Definition is_sleep (ev : Retry.Event) : bool :=
  match ev with Retry.Sleep _ => true | _ => false end.

Definition is_warning (ev : Retry.Event) : bool :=
  match ev with Retry.Warning _ => true | _ => false end.

(** Whether the module [owner] imports and has the attribute [name]. *)
Definition offers (import_module : string → Exn + Connector.PyModule) (owner name : string)
  : bool :=
  match import_module owner with
  | inr m => Connector.hasattr m name
  | inl _ => false
  end.

(** An installation of [mcp] whose [streamable_http] module has only
    [streamablehttp_client], and no [mcp.client.http] package. *)
Definition import_streamablehttp_client (module_name : string) : Exn + Connector.PyModule :=
  if String.eqb module_name "mcp.client.streamable_http" then
    inr (Connector.mkPyModule ["StreamableHTTPTransport"; "streamablehttp_client"]
           (Some "/site-packages/mcp/client/streamable_http.py"))
  else inl (mkExn "ModuleNotFoundError" ("No module named '" +:+ module_name +:+ "'")).

(** [",".join(origins)] *)
Fixpoint join_comma (origins : list string) : string :=
  match origins with
  | [] => ""
  | [o] => o
  | o :: rest => o +:+ "," +:+ join_comma rest
  end.

(** [str.isspace] on the characters below 256: tab to carriage return,
    the four separators, the space, NEL and the no-break space. *)
Definition latin1_isspace (c : ascii) : bool :=
  let n := nat_of_ascii c in
  ((9 <=? n) && (n <=? 13) || (28 <=? n) && (n <=? 32) || (n =? 133) || (n =? 160))%nat.

(** ** pipelines/time.py *)

Module TimePipe.

(** [s.replace("+00:00", "Z")], with [fuel] at least the length of [s]. *)
Fixpoint replace_utc (fuel : nat) (s : string) : string :=
  match fuel with
  | O => s
  | S fuel' =>
      if String.prefix "+00:00" s then
        "Z" +:+ replace_utc fuel' (String.substring 6 (String.length s - 6) s)
      else
        match s with
        | "" => ""
        | String c s' => String c (replace_utc fuel' s')
        end
  end.

(** [Pipeline.pipe(self, user_message=None, model_id=None, messages=None,
    body=None)]; [now_iso] is what
    [datetime.now(timezone.utc).isoformat()] gives at the call. *)
Definition pipe (now_iso : string) (body : value) : result value :=
  let now :=
    if Main.endswith now_iso "+00:00" then replace_utc (S (String.length now_iso)) now_iso
    else now_iso in
  let result := [("time", PyStr now)] in
  match body with
  | PyDict d =>
      match dict_lookup d "echo" with
      | Some v => mret (PyDict (result ++ [("echo", v)]))
      | None => mret (PyDict result)
      end
  | _ => mret (PyDict result)
  end.

End TimePipe.

(** ** pipelines/echo.py and pipelines/time_unix.py *)

Module TimeUnix.

Definition id : string := "time_unix".
Definition name : string := "time_unix".

(** [Pipeline.pipe(self, user_message=None, model_id=None, messages=None,
    body=None)], the same in the two files; [now_iso] is what
    [datetime.now(timezone.utc).isoformat()] gives at the call and
    [epoch] what [int(time.time())] gives. *)
Definition pipe (now_iso : string) (epoch : Z) (body : value) : result value :=
  let now_iso :=
    if Main.endswith now_iso "+00:00"
    then TimePipe.replace_utc (S (String.length now_iso)) now_iso
    else now_iso in
  mret (PyDict [("epoch", PyInt epoch); ("time", PyStr now_iso)]).

End TimeUnix.

(** ** Concrete requests, handlers and states *)

Definition request_with_key (key : string) : Request :=
  mkRequest {["x-api-key" := key]}.

Definition request_without_key : Request := mkRequest ∅.

(** A callable that returns a [set]. *)
Definition tags_pipe : Handler := λ _, inr (PyObject "set" true).

(** A rendering that raises on no content, for requests whose contents
    render. *)
Definition renders_all : Render := mkRender (λ _, None) (λ _ _ _ _, eq_refl).

(** A callable that raises [SystemExit], as [sys.exit(1)] does. *)
Definition exit_pipe : Handler := λ _, inl (NonException "SystemExit" "1").

(** The largest finite binary64, 1.7976931348623157e308. *)
Definition float_max : float64 := S754_finite false 9007199254740991 971.

(** A gateway with the secret ["s3cret"], after a scan that found
    [math_add.py] and a unit [tags.py] whose [pipe] returns a set. *)
Definition st_shipped : State :=
  mkState "s3cret"
    (<["math_add" := mkEntry "pipelines.math_add" "./pipelines/math_add.py"
                       (handler MathAdd.pipe)]>
       (<["tags" := mkEntry "pipelines.tags" "./pipelines/tags.py" tags_pipe]> ∅))
    [] [].

(** A gateway whose registry holds a unit [exit.py] whose [pipe] raises
    [SystemExit]. *)
Definition st_exit : State :=
  mkState "s3cret" (<["exit" := mkEntry "pipelines.exit" "./pipelines/exit.py" exit_pipe]> ∅)
    [] [].

(** Units of a scanned directory: the shipped [math_add.py]; a file
    that does not parse; a module without a [Pipeline] class; a unit
    whose instance has an empty [id] and the [name] ["sum"]. *)
Definition unit_math_add : SourceUnit :=
  mkSourceUnit "math_add.py" true
    (inr (mkModuleObj (Some (inr (mkPipelineObj (Some (Callable (handler MathAdd.pipe)))
                                    (Some (attr_of_str MathAdd.id))
                                    (Some (attr_of_str MathAdd.name))))))).

(** The shipped [echo.py] and [time_unix.py], whose [Pipeline] classes
    both have the [id] ["time_unix"], with their [pipe] at one reading of
    the clock. *)
Definition time_unix_pipe : Handler :=
  handler (TimeUnix.pipe "2025-08-22T17:35:12.250000+00:00" 1755884112).

Definition unit_echo : SourceUnit :=
  mkSourceUnit "echo.py" true
    (inr (mkModuleObj (Some (inr (mkPipelineObj (Some (Callable time_unix_pipe))
                                    (Some (attr_of_str TimeUnix.id))
                                    (Some (attr_of_str TimeUnix.name))))))).

Definition unit_time_unix : SourceUnit :=
  mkSourceUnit "time_unix.py" true
    (inr (mkModuleObj (Some (inr (mkPipelineObj (Some (Callable time_unix_pipe))
                                    (Some (attr_of_str TimeUnix.id))
                                    (Some (attr_of_str TimeUnix.name))))))).

(** A unit whose module calls [sys.exit(1)] when it is executed. *)
Definition unit_exit : SourceUnit :=
  mkSourceUnit "exit.py" true (inl (NonException "SystemExit" "1")).

Definition unit_broken : SourceUnit :=
  mkSourceUnit "broken.py" true (inl (Exception (mkExn "SyntaxError" "invalid syntax"))).

Definition unit_helpers : SourceUnit :=
  mkSourceUnit "helpers.py" true (inr (mkModuleObj None)).

Definition unit_blank_id : SourceUnit :=
  mkSourceUnit "adder.py" true
    (inr (mkModuleObj (Some (inr (mkPipelineObj (Some (Callable (handler MathAdd.pipe)))
                                    (Some (attr_of_str ""))
                                    (Some (attr_of_str "sum"))))))).

(** A file system whose only directory is [./pipelines]. *)
Definition fs_with (l : list SourceUnit) : FileSystem :=
  mkFileSystem (λ path, String.eqb path "./pipelines")
    (λ path, if String.eqb path "./pipelines" then l else []).

(** ** The credential check *)

Section credential_check.

Implicit Types (configured key : string) (request : Request).

Lemma truthy_str_iff key : truthy (PyStr key) = true ↔ key ≠ "".
Proof.
  simpl. destruct (String.eqb_spec key ""); simpl; split; congruence.
Qed.

Lemma api_dependency_accepts configured request :
  headers request !! "x-api-key" = Some configured → configured ≠ "" →
  api_dependency configured request = inr (mkAPIKeyHeader configured).
Proof.
  intros Hhdr Hne. unfold api_dependency. rewrite Hhdr.
  apply truthy_str_iff in Hne. rewrite Hne, String.eqb_refl. reflexivity.
Qed.

Lemma api_dependency_rejects configured request :
  ¬ (headers request !! "x-api-key" = Some configured ∧ configured ≠ "") →
  api_dependency configured request = inl Unauthorized.
Proof.
  intros Hno. unfold api_dependency.
  destruct (headers request !! "x-api-key") as [key|] eqn:Hhdr; [|done].
  destruct (truthy (PyStr key)) eqn:Ht; [|done].
  destruct (String.eqb_spec key configured) as [->|]; [|done].
  exfalso. apply Hno. split; [done|]. by apply truthy_str_iff.
Qed.

Lemma require_api_key_accepts environ request :
  let secret := getenv environ "API_KEY" "" in
  headers request !! "x-api-key" = Some secret → secret ≠ "" →
  PipelinesList.require_api_key environ request = inr ().
Proof.
  intros secret Hhdr Hne.
  unfold PipelinesList.require_api_key, PipelinesList.API_KEY_ENV.
  fold secret. apply truthy_str_iff in Hne. rewrite Hne. simpl.
  rewrite bool_decide_eq_true_2; done.
Qed.

Lemma require_api_key_rejects environ request :
  let secret := getenv environ "API_KEY" "" in
  ¬ (headers request !! "x-api-key" = Some secret ∧ secret ≠ "") →
  PipelinesList.require_api_key environ request = inl Unauthorized.
Proof.
  intros secret Hno.
  unfold PipelinesList.require_api_key, PipelinesList.API_KEY_ENV. fold secret.
  destruct (truthy (PyStr secret)) eqn:Ht; [|done].
  simpl. case_bool_decide as Hp; [|done].
  exfalso. apply Hno. split; [done|]. by apply truthy_str_iff.
Qed.

(** A request the dependency turns down never reaches a path
    operation: every route answers it with the same 401 body and
    leaves the state as it was. *)
Lemma app_unauthorized render route request st :
  api_dependency (API_KEY st) request = inl Unauthorized →
  app render route request st
  = (Answered (mkResponse 401 (PyDict [("detail", PyStr "Unauthorized")])), st).
Proof.
  intros Hrej. unfold app, Depends_api_dependency, mbind, gw_bind.
  rewrite Hrej. reflexivity.
Qed.

(** An accepted request reaches its path operation. *)
Lemma app_authorized render route request st :
  headers request !! "x-api-key" = Some (API_KEY st) → API_KEY st ≠ "" →
  app render route request st
  = match
      match route with
      | GET_pipelines => body ← _pipelines_list; mret (mkResponse 200 body)
      | POST_pipelines name payload => _pipelines_call render name payload
      end st
    with
    | (inr response, st') => (Answered response, st')
    | (inl (Http exc), st') => (Answered (http_exception_handler exc), st')
    | (inl (Uncaught cls msg), st') => (Escaped cls msg, st')
    end.
Proof.
  intros Hhdr Hne. unfold app, Depends_api_dependency.
  unfold mbind at 1. unfold gw_bind at 1.
  rewrite (api_dependency_accepts _ _ Hhdr Hne). reflexivity.
Qed.

(** The path operations answer 200, 404 or 500, when they answer. *)
Lemma app_status_authorized render route request st :
  headers request !! "x-api-key" = Some (API_KEY st) → API_KEY st ≠ "" →
  let code := status_of (app render route request st).1 in
  code = Some 200 ∨ code = Some 404 ∨ code = Some 500 ∨ code = None.
Proof.
  intros Hhdr Hne. rewrite (app_authorized _ _ _ _ Hhdr Hne).
  destruct route as [|name payload]; [by left|].
  unfold _pipelines_call, mbind, gw_bind, gw_get, gw_raise, gw_uncaught, gw_modify; simpl.
  destruct (_PIPELINES_REGISTRY st !! name) as [entry|]; simpl; [|by right; left].
  destruct (callable entry _) as [[e|cls msg]|v]; simpl; [by right; right; left|by do 3 right|].
  unfold JSONResponse.
  destruct (isinstance_dict v);
    destruct (render _); simpl; auto.
Qed.

End credential_check.

(** C1. A request to a guarded route is accepted exactly when its
    [x-api-key] header equals the configured secret and the secret is
    not empty, for the dependency of [main.py] and for the one of
    [pipelines_list.py] alike; with an empty secret nothing is accepted;
    and every rejection, header missing or wrong, is the same
    [HTTPException(401, "Unauthorized")], which every guarded route
    answers with the same 401 body, the state untouched. *)
Theorem credential_check_exact_and_uniform :
  ∀ (configured : string) (environ : gmap string string) (request : Request),
    let provided := headers request !! "x-api-key" in
    let secret := getenv environ "API_KEY" "" in
    (api_dependency configured request = inr (mkAPIKeyHeader configured)
       ↔ provided = Some configured ∧ configured ≠ "")
    ∧ (api_dependency configured request = inl Unauthorized
       ↔ ¬ (provided = Some configured ∧ configured ≠ ""))
    ∧ (PipelinesList.require_api_key environ request = inr ()
       ↔ provided = Some secret ∧ secret ≠ "")
    ∧ (PipelinesList.require_api_key environ request = inl Unauthorized
       ↔ ¬ (provided = Some secret ∧ secret ≠ ""))
    ∧ (∀ request', api_dependency "" request' = inl Unauthorized)
    ∧ (∀ environ' request',
         getenv environ' "API_KEY" "" = "" →
         PipelinesList.require_api_key environ' request' = inl Unauthorized)
    ∧ (∀ render route st,
         status_of (app render route request st).1 = Some 401
         ↔ ¬ (provided = Some (API_KEY st) ∧ API_KEY st ≠ ""))
    ∧ (∀ render route st,
         ¬ (provided = Some (API_KEY st) ∧ API_KEY st ≠ "") →
         app render route request st
         = (Answered (mkResponse 401 (PyDict [("detail", PyStr "Unauthorized")])), st)).
Proof.
  intros configured environ request provided secret.
  assert (Hmain : ∀ c, (api_dependency c request = inr (mkAPIKeyHeader c)
                        ↔ provided = Some c ∧ c ≠ "")
                     ∧ (api_dependency c request = inl Unauthorized
                        ↔ ¬ (provided = Some c ∧ c ≠ ""))).
  { intros c. destruct (decide (provided = Some c ∧ c ≠ "")) as [[Hp Hc]|Hno].
    - pose proof (api_dependency_accepts c request Hp Hc) as Hacc.
      rewrite Hacc. split; split; try done. intros Hn. by destruct Hn.
    - pose proof (api_dependency_rejects c request Hno) as Hrej.
      rewrite Hrej. split; split; done. }
  split; [apply Hmain|]. split; [apply Hmain|].
  assert (Hlist : (PipelinesList.require_api_key environ request = inr ()
                     ↔ provided = Some secret ∧ secret ≠ "")
                  ∧ (PipelinesList.require_api_key environ request = inl Unauthorized
                     ↔ ¬ (provided = Some secret ∧ secret ≠ ""))).
  { destruct (decide (provided = Some secret ∧ secret ≠ "")) as [[Hp Hc]|Hno].
    - pose proof (require_api_key_accepts environ request Hp Hc) as Hacc.
      rewrite Hacc. split; split; try done. intros Hn. by destruct Hn.
    - pose proof (require_api_key_rejects environ request Hno) as Hrej.
      rewrite Hrej. split; split; done. }
  split; [apply Hlist|]. split; [apply Hlist|].
  split.
  { intros request'. apply api_dependency_rejects. by intros [_ ?]. }
  split.
  { intros environ' request' Hempty. apply require_api_key_rejects.
    rewrite Hempty. by intros [_ ?]. }
  split.
  - intros render route st.
    destruct (decide (provided = Some (API_KEY st) ∧ API_KEY st ≠ "")) as [[Hp Hc]|Hno].
    + split; [|by intros Hn; destruct Hn].
      intros H401. exfalso.
      pose proof (app_status_authorized render route request st Hp Hc) as Hst.
      rewrite H401 in Hst. destruct Hst as [|[|[|]]]; discriminate.
    + split; [done|]. intros _.
      rewrite app_unauthorized; [done|]. by apply api_dependency_rejects.
  - intros render route st Hno. apply app_unauthorized. by apply api_dependency_rejects.
Qed.

Example missing_and_wrong_key_alike :
  ∀ render route,
    app render route request_without_key st_shipped
    = app render route (request_with_key "guess") st_shipped.
Proof.
  intros render route.
  rewrite !app_unauthorized; [done| |]; by apply api_dependency_rejects; intros [? _].
Qed.

(** The scan leaves [API_KEY] as the import of the module set it. *)
Lemma load_unit_API_KEY base_dir st u : API_KEY (load_unit base_dir st u).2 = API_KEY st.
Proof.
  unfold load_unit. destruct (negb _); [done|].
  destruct (try_load base_dir u) as [[e|cls msg]|[[pid entry]|]]; done.
Qed.

Lemma for_each_load_unit_API_KEY base_dir l st :
  API_KEY (for_each (load_unit base_dir) st l).2 = API_KEY st.
Proof.
  revert st. induction l as [|u l IH]; intros st; simpl; [done|].
  pose proof (load_unit_API_KEY base_dir st u) as Hu.
  destruct (load_unit base_dir st u) as [[e|[]] st']; simpl in *; [done|].
  by rewrite IH.
Qed.

Lemma discover_pipelines_API_KEY fs base_dir st :
  API_KEY (_discover_pipelines fs base_dir st).2 = API_KEY st.
Proof.
  unfold _discover_pipelines. destruct (_ || _); [done|].
  by rewrite for_each_load_unit_API_KEY.
Qed.

(** C10. With [API_KEY] unset when [main.py] is imported, the secret of
    the gateway is the placeholder ["changeme"], before and after the
    startup scan: its dependency accepts exactly the requests whose
    [x-api-key] header is ["changeme"], so the routes are not closed;
    [require_api_key] of [pipelines_list.py], which reads the variable
    at each request, turns every request down while the variable is
    unset or empty. *)
Theorem unset_api_key_leaves_placeholder :
  ∀ (environ : gmap string string),
    environ !! "API_KEY" = None →
    API_KEY (load environ) = "changeme"
    ∧ (∀ fs base_dir,
         API_KEY (_discover_pipelines fs base_dir (load environ)).2 = "changeme")
    ∧ (∀ request,
         api_dependency (API_KEY (load environ)) request = inr (mkAPIKeyHeader "changeme")
         ↔ headers request !! "x-api-key" = Some "changeme")
    ∧ (∀ request,
         api_dependency (API_KEY (load environ)) request = inl Unauthorized
         ↔ headers request !! "x-api-key" ≠ Some "changeme")
    ∧ (∀ render route request,
         headers request !! "x-api-key" = Some "changeme" →
         status_of (app render route request (load environ)).1 ≠ Some 401)
    ∧ (∀ environ' request,
         environ' !! "API_KEY" = None ∨ environ' !! "API_KEY" = Some "" →
         PipelinesList.require_api_key environ' request = inl Unauthorized).
Proof.
  intros environ Hunset.
  assert (Hkey : API_KEY (load environ) = "changeme").
  { unfold load, getenv; simpl. by rewrite Hunset. }
  split; [done|]. split.
  { intros fs base_dir. by rewrite discover_pipelines_API_KEY. }
  rewrite Hkey.
  assert (Hiff : ∀ request,
            (api_dependency "changeme" request = inr (mkAPIKeyHeader "changeme")
             ↔ headers request !! "x-api-key" = Some "changeme")
            ∧ (api_dependency "changeme" request = inl Unauthorized
               ↔ headers request !! "x-api-key" ≠ Some "changeme")).
  { intros request.
    destruct (decide (headers request !! "x-api-key" = Some "changeme")) as [Hp|Hno].
    - rewrite (api_dependency_accepts "changeme" request Hp) by done.
      split; split; done.
    - rewrite (api_dependency_rejects "changeme" request) by (by intros [? _]).
      split; split; done. }
  split; [apply Hiff|]. split; [apply Hiff|].
  split.
  { intros render route request Hhdr H401.
    assert (Ha : headers request !! "x-api-key" = Some (API_KEY (load environ)))
      by (by rewrite Hkey).
    assert (Hb : API_KEY (load environ) ≠ "") by (by rewrite Hkey).
    pose proof (app_status_authorized render route request _ Ha Hb) as Hst.
    simpl in Hst. rewrite H401 in Hst. destruct Hst as [|[|[|]]]; discriminate. }
  intros environ' request Hempty.
  apply require_api_key_rejects. unfold getenv.
  destruct Hempty as [-> | ->]; by intros [_ ?].
Qed.

(** C10, at the empty environment. *)
Lemma unset_api_key_leaves_placeholder_witness :
  (∅ : gmap string string) !! "API_KEY" = None
  ∧ API_KEY (load ∅) = "changeme".
Proof.
  split; [reflexivity|].
  exact (proj1 (unset_api_key_leaves_placeholder ∅ eq_refl)).
Defined.

(** ** Dispatch *)

Section dispatch.

Implicit Types (st : State) (request : Request) (name : string).
Implicit Types (payload : option (list (string * value))) (entry : Entry).

Lemma pipelines_call_not_found render name payload st :
  _PIPELINES_REGISTRY st !! name = None →
  _pipelines_call render name payload st
  = (inl (Http (mkHTTPException 404 ("pipeline '" +:+ name +:+ "' not found"))), st).
Proof.
  intros Hmiss. unfold _pipelines_call, mbind, gw_bind, gw_get, gw_raise.
  by rewrite Hmiss.
Qed.

Lemma pipelines_call_raises render name payload st entry e :
  _PIPELINES_REGISTRY st !! name = Some entry →
  callable entry (body_of payload) = inl (Exception e) →
  _pipelines_call render name payload st
  = (inl (Http (mkHTTPException 500 (exc_str e))),
     log "ERROR" ("Pipeline '" +:+ name +:+ "' execution error: " +:+ exc_str e)
       (record_call name (body_of payload) st)).
Proof.
  intros Hreg Hraise. unfold body_of in Hraise.
  unfold _pipelines_call, mbind, gw_bind, gw_get, gw_raise, gw_modify.
  cbv beta iota zeta. rewrite Hreg. cbv beta iota. by rewrite Hraise.
Qed.

Lemma pipelines_call_escapes render name payload st entry cls msg :
  _PIPELINES_REGISTRY st !! name = Some entry →
  callable entry (body_of payload) = inl (NonException cls msg) →
  _pipelines_call render name payload st
  = (inl (Uncaught cls msg), record_call name (body_of payload) st).
Proof.
  intros Hreg Hraise. unfold body_of in Hraise.
  unfold _pipelines_call, mbind, gw_bind, gw_get, gw_uncaught, gw_modify.
  cbv beta iota zeta. rewrite Hreg. cbv beta iota. by rewrite Hraise.
Qed.

Lemma pipelines_call_returns render name payload st entry v :
  _PIPELINES_REGISTRY st !! name = Some entry →
  callable entry (body_of payload) = inr v →
  _pipelines_call render name payload st
  = match render (response_content v) with
    | None =>
        (inr (mkResponse 200 (response_content v)), record_call name (body_of payload) st)
    | Some e =>
        (inl (Http (mkHTTPException 500 (exc_str e))),
         log "ERROR" ("Pipeline '" +:+ name +:+ "' execution error: " +:+ exc_str e)
           (record_call name (body_of payload) st))
    end.
Proof.
  intros Hreg Hret. unfold body_of in Hret.
  unfold _pipelines_call, mbind, gw_bind, gw_get, gw_raise, gw_modify.
  cbv beta iota zeta. rewrite Hreg. cbv beta iota. rewrite Hret.
  unfold outcome_bind, JSONResponse, response_content.
  destruct (isinstance_dict v); by destruct (render _).
Qed.

Lemma app_unfold render route request st :
  app render route request st
  = match api_dependency (API_KEY st) request with
    | inl exc => (Answered (http_exception_handler exc), st)
    | inr _ =>
        match
          match route with
          | GET_pipelines => body ← _pipelines_list; mret (mkResponse 200 body)
          | POST_pipelines name payload => _pipelines_call render name payload
          end st
        with
        | (inr response, st') => (Answered response, st')
        | (inl (Http exc), st') => (Answered (http_exception_handler exc), st')
        | (inl (Uncaught cls msg), st') => (Escaped cls msg, st')
        end
    end.
Proof.
  unfold app, Depends_api_dependency. unfold mbind at 1. unfold gw_bind at 1.
  by destruct (api_dependency (API_KEY st) request).
Qed.

(** What a [POST] that the dependency lets through does, by what the
    registry holds and what the callable and the rendering do. *)
Lemma app_post_cases render name payload request st :
  authorized st request →
  app render (POST_pipelines name payload) request st
  = match _PIPELINES_REGISTRY st !! name with
    | None =>
        (Answered (mkResponse 404
                     (PyDict [("detail", PyStr ("pipeline '" +:+ name +:+ "' not found"))])),
         st)
    | Some entry =>
        match callable entry (body_of payload) with
        | inl (NonException cls msg) =>
            (Escaped cls msg, record_call name (body_of payload) st)
        | inl (Exception e) =>
            (Answered (mkResponse 500 (PyDict [("detail", PyStr (exc_str e))])),
             log "ERROR" ("Pipeline '" +:+ name +:+ "' execution error: " +:+ exc_str e)
               (record_call name (body_of payload) st))
        | inr v =>
            match render (response_content v) with
            | None =>
                (Answered (mkResponse 200 (response_content v)),
                 record_call name (body_of payload) st)
            | Some e =>
                (Answered (mkResponse 500 (PyDict [("detail", PyStr (exc_str e))])),
                 log "ERROR" ("Pipeline '" +:+ name +:+ "' execution error: " +:+ exc_str e)
                   (record_call name (body_of payload) st))
            end
        end
    end.
Proof.
  intros [Hhdr Hne]. rewrite (app_authorized _ _ _ _ Hhdr Hne).
  destruct (_PIPELINES_REGISTRY st !! name) as [entry|] eqn:Hreg.
  - destruct (callable entry (body_of payload)) as [[e|cls msg]|v] eqn:Hcall.
    + by rewrite (pipelines_call_raises _ _ _ _ _ _ Hreg Hcall).
    + by rewrite (pipelines_call_escapes _ _ _ _ _ _ _ Hreg Hcall).
    + rewrite (pipelines_call_returns _ _ _ _ _ _ Hreg Hcall).
      by destruct (render _).
  - by rewrite (pipelines_call_not_found _ _ _ _ Hreg).
Qed.

(** No request writes to [API_KEY] or to the registry. *)
Lemma app_preserves render route request st :
  API_KEY (app render route request st).2 = API_KEY st
  ∧ _PIPELINES_REGISTRY (app render route request st).2 = _PIPELINES_REGISTRY st.
Proof.
  rewrite app_unfold.
  destruct (api_dependency (API_KEY st) request) as [exc|hdr]; [done|].
  destruct route as [|name payload]; [done|].
  destruct (_PIPELINES_REGISTRY st !! name) as [entry|] eqn:Hreg.
  - destruct (callable entry (body_of payload)) as [[e|cls msg]|v] eqn:Hcall.
    + by rewrite (pipelines_call_raises _ _ _ _ _ _ Hreg Hcall).
    + by rewrite (pipelines_call_escapes _ _ _ _ _ _ _ Hreg Hcall).
    + rewrite (pipelines_call_returns _ _ _ _ _ _ Hreg Hcall).
      by destruct (render _).
  - by rewrite (pipelines_call_not_found _ _ _ _ Hreg).
Qed.

(** The answer to a request is a function of [API_KEY] and of the
    registry alone. *)
Lemma app_response_ext render route request st1 st2 :
  API_KEY st1 = API_KEY st2 →
  _PIPELINES_REGISTRY st1 = _PIPELINES_REGISTRY st2 →
  (app render route request st1).1 = (app render route request st2).1.
Proof.
  intros Hkey Hreg. rewrite !app_unfold, Hkey.
  destruct (api_dependency (API_KEY st2) request) as [exc|hdr]; [done|].
  destruct route as [|name payload].
  - unfold _pipelines_list, mbind, gw_bind, gw_get; simpl. by rewrite Hreg.
  - destruct (_PIPELINES_REGISTRY st2 !! name) as [entry|] eqn:Hreg2.
    + assert (Hreg1 : _PIPELINES_REGISTRY st1 !! name = Some entry) by (by rewrite Hreg).
      destruct (callable entry (body_of payload)) as [[e|cls msg]|v] eqn:Hcall.
      * by rewrite (pipelines_call_raises _ _ _ _ _ _ Hreg1 Hcall),
                   (pipelines_call_raises _ _ _ _ _ _ Hreg2 Hcall).
      * by rewrite (pipelines_call_escapes _ _ _ _ _ _ _ Hreg1 Hcall),
                   (pipelines_call_escapes _ _ _ _ _ _ _ Hreg2 Hcall).
      * rewrite (pipelines_call_returns _ _ _ _ _ _ Hreg1 Hcall),
                (pipelines_call_returns _ _ _ _ _ _ Hreg2 Hcall).
        by destruct (render _).
    + assert (Hreg1 : _PIPELINES_REGISTRY st1 !! name = None) by (by rewrite Hreg).
      by rewrite (pipelines_call_not_found _ _ _ _ Hreg1),
                 (pipelines_call_not_found _ _ _ _ Hreg2).
Qed.

End dispatch.

Lemma authorized_shipped : authorized st_shipped (request_with_key "s3cret").
Proof. split; [reflexivity | discriminate]. Qed.

Lemma authorized_exit : authorized st_exit (request_with_key "s3cret").
Proof. split; [reflexivity | discriminate]. Qed.

Lemma app_authorized_returns render st request name payload entry v :
  authorized st request →
  _PIPELINES_REGISTRY st !! name = Some entry →
  callable entry (body_of payload) = inr v →
  app render (POST_pipelines name payload) request st
  = match render (response_content v) with
    | None =>
        (Answered (mkResponse 200 (response_content v)),
         record_call name (body_of payload) st)
    | Some e =>
        (Answered (mkResponse 500 (PyDict [("detail", PyStr (exc_str e))])),
         log "ERROR" ("Pipeline '" +:+ name +:+ "' execution error: " +:+ exc_str e)
           (record_call name (body_of payload) st))
    end.
Proof.
  intros Hauth Hreg Hret.
  by rewrite (app_post_cases _ _ _ _ _ Hauth), Hreg, Hret.
Qed.

(** C2, as amended. For an authorized [POST /pipelines/{id}] with a
    registered id whose callable returns a value, when the construction
    of the [JSONResponse] renders the body without raising: the answer
    has status 200, and its body is the value itself when the value is a
    dict and [{"result": value}] otherwise. *)
Theorem json_result_is_200 :
  ∀ (render : Render) st request name payload entry v,
    authorized st request →
    _PIPELINES_REGISTRY st !! name = Some entry →
    callable entry (body_of payload) = inr v →
    render (if isinstance_dict v then v else PyDict [("result", v)]) = None →
    (app render (POST_pipelines name payload) request st).1
    = Answered (mkResponse 200 (if isinstance_dict v then v else PyDict [("result", v)])).
Proof.
  intros render st request name payload entry v Hauth Hreg Hret Hjson.
  rewrite (app_authorized_returns _ _ _ _ _ _ _ Hauth Hreg Hret).
  unfold response_content. rewrite Hjson. reflexivity.
Qed.

(** C2 as amended, on [math_add] with the body [{"values": [1, 2, 3]}],
    when [{"sum": 6.0}] renders. *)
Lemma json_result_is_200_witness :
  (app renders_all
     (POST_pipelines "math_add" (Some [("values", PyList [PyInt 1; PyInt 2; PyInt 3])]))
     (request_with_key "s3cret") st_shipped).1
  = Answered
      (mkResponse 200 (PyDict [("sum", PyFloat (S754_finite false 6755399441055744 (-50)))])).
Proof.
  apply (json_result_is_200 renders_all st_shipped (request_with_key "s3cret") "math_add"
           (Some [("values", PyList [PyInt 1; PyInt 2; PyInt 3])])
           (mkEntry "pipelines.math_add" "./pipelines/math_add.py" (handler MathAdd.pipe))
           (PyDict [("sum", PyFloat (S754_finite false 6755399441055744 (-50)))])).
  - split; [reflexivity | discriminate].
  - reflexivity.
  - vm_compute. reflexivity.
  - reflexivity.
Defined.

(** C2 fails as stated: a callable that returns without raising, and
    the answer is 500 with the text of the exception that the rendering
    of the body raises. Once with a unit whose [pipe] returns a set, the
    body being [{"result": <the set>}], on which [json.dumps] raises
    [TypeError]; once with [math_add] on
    [{"values": [1.7976931348623157e308, 1.7976931348623157e308]}],
    whose return value is the dict [{"sum": inf}], on which
    [json.dumps(..., allow_nan=False)] raises [ValueError]. What the
    model takes of the rendering allows both. *)
Lemma returned_value_answered_500 :
  authorized st_shipped (request_with_key "s3cret")
  ∧ tags_pipe (body_of None) = inr (PyObject "set" true)
  ∧ (∀ (render : Render) e,
       render (PyDict [("result", PyObject "set" true)]) = Some e →
       (app render (POST_pipelines "tags" None) (request_with_key "s3cret") st_shipped).1
       = Answered (mkResponse 500 (PyDict [("detail", PyStr (exc_str e))])))
  ∧ handler MathAdd.pipe
      (body_of (Some [("values", PyList [PyFloat float_max; PyFloat float_max])]))
    = inr (PyDict [("sum", PyFloat (S754_infinity false))])
  ∧ (∀ (render : Render) e,
       render (PyDict [("sum", PyFloat (S754_infinity false))]) = Some e →
       (app render
          (POST_pipelines "math_add"
             (Some [("values", PyList [PyFloat float_max; PyFloat float_max])]))
          (request_with_key "s3cret") st_shipped).1
       = Answered (mkResponse 500 (PyDict [("detail", PyStr (exc_str e))])))
  ∧ (∃ (render : Render) e e',
       render (PyDict [("result", PyObject "set" true)]) = Some e
       ∧ render (PyDict [("sum", PyFloat (S754_infinity false))]) = Some e').
Proof.
  split; [exact authorized_shipped|].
  split; [reflexivity|].
  assert (Hrejects : ∃ (render : Render) e e',
            render (PyDict [("result", PyObject "set" true)]) = Some e
            ∧ render (PyDict [("sum", PyFloat (S754_infinity false))]) = Some e').
  { exists (mkRender
              (λ content,
                 match content with
                 | PyDict [(_, PyStr _)] => None
                 | PyDict [(_, PyFloat _)] =>
                     Some (mkExn "ValueError" "Out of range float values are not JSON compliant")
                 | _ => Some (mkExn "TypeError" "Object of type set is not JSON serializable")
                 end)
              (λ _ _ _ _, eq_refl)).
    by eexists _, _. }
  split.
  { intros render e Hrender.
    rewrite (app_authorized_returns render st_shipped _ "tags" None _ (PyObject "set" true)
               authorized_shipped eq_refl eq_refl).
    unfold response_content. simpl isinstance_dict. cbv iota. by rewrite Hrender. }
  assert (Hpipe : handler MathAdd.pipe
                    (body_of (Some [("values", PyList [PyFloat float_max; PyFloat float_max])]))
                  = inr (PyDict [("sum", PyFloat (S754_infinity false))])).
  { vm_compute. reflexivity. }
  split; [exact Hpipe|].
  split; [|exact Hrejects].
  intros render e Hrender.
  rewrite (app_authorized_returns render st_shipped _ "math_add" _ _ _
             authorized_shipped eq_refl Hpipe).
  unfold response_content. simpl isinstance_dict. cbv iota. by rewrite Hrender.
Qed.

(** C3, as amended. For an authorized [POST /pipelines/{id}] with a
    registered id whose callable raises an instance of [Exception]: the
    exception is caught and logged, the answer is 500 with the [str()]
    of the exception as its detail, the registry and the secret are as
    before, and every later request is answered as it would have been
    before. *)
Theorem handler_fault_is_500 :
  ∀ render st request name payload entry e,
    authorized st request →
    _PIPELINES_REGISTRY st !! name = Some entry →
    callable entry (body_of payload) = inl (Exception e) →
    let served := app render (POST_pipelines name payload) request st in
    served.1 = Answered (mkResponse 500 (PyDict [("detail", PyStr (exc_str e))]))
    ∧ _PIPELINES_REGISTRY served.2 = _PIPELINES_REGISTRY st
    ∧ API_KEY served.2 = API_KEY st
    ∧ logged served.2
      = logged st ++ [mkLogRecord "ERROR"
                        ("Pipeline '" +:+ name +:+ "' execution error: " +:+ exc_str e)]
    ∧ (∀ render' route' request',
         (app render' route' request' served.2).1 = (app render' route' request' st).1).
Proof.
  intros render st request name payload entry e [Hhdr Hne] Hreg Hraise served.
  assert (Hserved : served
                    = (Answered (mkResponse 500 (PyDict [("detail", PyStr (exc_str e))])),
                       log "ERROR"
                         ("Pipeline '" +:+ name +:+ "' execution error: " +:+ exc_str e)
                         (record_call name (body_of payload) st))).
  { unfold served.
    by rewrite (app_authorized _ _ _ _ Hhdr Hne),
               (pipelines_call_raises _ _ _ _ _ _ Hreg Hraise). }
  rewrite Hserved. simpl. repeat split.
  intros render' route' request'. by apply app_response_ext.
Qed.

(** C3 as amended, on [math_add] with the body [{"values": [2 ** 1024]}],
    where [float(sum(values))] raises [OverflowError]. *)
Lemma handler_fault_is_500_witness :
  (app renders_all
     (POST_pipelines "math_add" (Some [("values", PyList [PyInt (2 ^ 1024)])]))
     (request_with_key "s3cret") st_shipped).1
  = Answered (mkResponse 500 (PyDict [("detail", PyStr "int too large to convert to float")])).
Proof.
  refine (proj1 (handler_fault_is_500 renders_all st_shipped (request_with_key "s3cret")
                   "math_add"
                   (Some [("values", PyList [PyInt (2 ^ 1024)])])
                   (mkEntry "pipelines.math_add" "./pipelines/math_add.py"
                      (handler MathAdd.pipe))
                   (mkExn "OverflowError" "int too large to convert to float") _ _ _)).
  - split; [reflexivity | discriminate].
  - reflexivity.
  - vm_compute. reflexivity.
Defined.

(** C3 fails as stated: the [except] clause of [_pipelines_call] names
    [Exception], so a callable that raises [SystemExit] is not caught.
    The exception leaves the path operation and the application: there
    is no 500 answer, and nothing is logged. *)
Lemma handler_exit_is_not_caught :
  authorized st_exit (request_with_key "s3cret")
  ∧ _PIPELINES_REGISTRY st_exit !! "exit"
    = Some (mkEntry "pipelines.exit" "./pipelines/exit.py" exit_pipe)
  ∧ exit_pipe (body_of None) = inl (NonException "SystemExit" "1")
  ∧ (∀ render,
       (app render (POST_pipelines "exit" None) (request_with_key "s3cret") st_exit).1
       = Escaped "SystemExit" "1")
  ∧ (∀ render,
       logged (app render (POST_pipelines "exit" None) (request_with_key "s3cret") st_exit).2
       = logged st_exit).
Proof.
  split; [exact authorized_exit|].
  split; [reflexivity|].
  split; [reflexivity|].
  split; intros render;
    by rewrite (app_post_cases render "exit" None _ _ authorized_exit).
Qed.

(** C4. For an authorized [POST /pipelines/{id}] whose id is not a key
    of the registry: the answer is 404 with the detail
    [pipeline '<id>' not found], no callable is invoked, and the state,
    the registry with it, is left as it was. *)
Theorem unknown_id_is_404 :
  ∀ render st request name payload,
    authorized st request →
    _PIPELINES_REGISTRY st !! name = None →
    let served := app render (POST_pipelines name payload) request st in
    served.1
    = Answered
        (mkResponse 404 (PyDict [("detail", PyStr ("pipeline '" +:+ name +:+ "' not found"))]))
    ∧ _PIPELINES_REGISTRY served.2 = _PIPELINES_REGISTRY st
    ∧ invoked served.2 = invoked st
    ∧ served.2 = st.
Proof.
  intros render st request name payload [Hhdr Hne] Hmiss served.
  unfold served.
  rewrite (app_authorized _ _ _ _ Hhdr Hne), (pipelines_call_not_found _ _ _ _ Hmiss).
  done.
Qed.

(** C4 on the id ["sum"], which the scan of the shipped units does not
    register. *)
Lemma unknown_id_is_404_witness :
  (app renders_all (POST_pipelines "sum" None) (request_with_key "s3cret") st_shipped).1
  = Answered (mkResponse 404 (PyDict [("detail", PyStr "pipeline 'sum' not found")])).
Proof.
  refine (proj1 (unknown_id_is_404 renders_all st_shipped (request_with_key "s3cret")
                   "sum" None _ _)).
  - split; [reflexivity | discriminate].
  - reflexivity.
Defined.

(** ** Listing *)

Section listing.

Implicit Types (reg : gmap string Entry) (k : string) (ids : list string).

Lemma elem_of_keys reg k : k ∈ keys reg ↔ is_Some (reg !! k).
Proof.
  unfold keys. rewrite list_elem_of_fmap. split.
  - intros ([k' entry] & -> & Hin). apply elem_of_map_to_list in Hin. by exists entry.
  - intros [entry Hlook]. exists (k, entry). split; [done|].
    by apply elem_of_map_to_list.
Qed.

Lemma NoDup_keys reg : NoDup (keys reg).
Proof. apply NoDup_fst_map_to_list. Qed.

Lemma elem_of_sorted ids k : k ∈ sorted ids ↔ k ∈ ids.
Proof. unfold sorted. by rewrite merge_sort_Permutation. Qed.

Lemma NoDup_sorted ids : NoDup ids → NoDup (sorted ids).
Proof. unfold sorted. by rewrite merge_sort_Permutation. Qed.

Lemma StronglySorted_sorted ids : StronglySorted String.le (sorted ids).
Proof. apply (StronglySorted_merge_sort String.le). Qed.

(** Ascending without repeats is strictly ascending. *)
Lemma StronglySorted_strict ids :
  StronglySorted String.le ids → NoDup ids → StronglySorted (strict String.le) ids.
Proof.
  induction 1 as [|k ids Hsorted IH Hall]; intros Hnodup; [constructor|].
  apply NoDup_cons in Hnodup as [Hnotin Hnodup].
  constructor; [by apply IH|].
  apply Forall_forall. intros k' Hin.
  rewrite Forall_forall in Hall. split; [by apply Hall|].
  intros Hback. apply Hnotin.
  by rewrite (anti_symm String.le k k' (Hall _ Hin) Hback).
Qed.

End listing.

(** C8. An authorized [GET /pipelines] is answered 200 with the body
    [{"pipelines": ids}], where [ids] holds exactly the keys of the
    registry, in strictly ascending order (so sorted, and no id twice);
    the state is left as it was. *)
Theorem pipelines_list_sorted_ids :
  ∀ render st request,
    authorized st request →
    ∃ ids,
      app render GET_pipelines request st
      = (Answered (mkResponse 200 (PyDict [("pipelines", PyList (PyStr <$> ids))])), st)
      ∧ StronglySorted String.le ids
      ∧ StronglySorted (strict String.le) ids
      ∧ NoDup ids
      ∧ (∀ k, k ∈ ids ↔ is_Some (_PIPELINES_REGISTRY st !! k)).
Proof.
  intros render st request [Hhdr Hne].
  exists (sorted (keys (_PIPELINES_REGISTRY st))).
  assert (Hnodup : NoDup (sorted (keys (_PIPELINES_REGISTRY st))))
    by apply NoDup_sorted, NoDup_keys.
  split; [by rewrite (app_authorized _ _ _ _ Hhdr Hne)|].
  split; [apply StronglySorted_sorted|].
  split; [by apply StronglySorted_strict; [apply StronglySorted_sorted|]|].
  split; [done|].
  intros k. by rewrite elem_of_sorted, elem_of_keys.
Qed.

(** C8 on the state with the ids ["tags"] and ["math_add"]. *)
Lemma pipelines_list_sorted_ids_witness :
  ∃ ids,
    app renders_all GET_pipelines (request_with_key "s3cret") st_shipped
    = (Answered (mkResponse 200 (PyDict [("pipelines", PyList (PyStr <$> ids))])), st_shipped)
    ∧ StronglySorted String.le ids
    ∧ StronglySorted (strict String.le) ids
    ∧ NoDup ids
    ∧ (∀ k, k ∈ ids ↔ is_Some (_PIPELINES_REGISTRY st_shipped !! k)).
Proof.
  apply (pipelines_list_sorted_ids renders_all st_shipped (request_with_key "s3cret")).
  split; [reflexivity | discriminate].
Defined.

Example pipelines_list_shipped :
  ∀ render,
    (app render GET_pipelines (request_with_key "s3cret") st_shipped).1
    = Answered (mkResponse 200 (PyDict [("pipelines", PyList [PyStr "math_add"; PyStr "tags"])])).
Proof. intros render. vm_compute. reflexivity. Qed.

(** ** The summing handler *)

Section math_add.

Implicit Types (d : list (string * value)) (l : list value) (zs : list Z).

Lemma dict_get_lookup d key default :
  dict_get d key default = from_option (λ v, v) default (dict_lookup d key).
Proof.
  induction d as [|[k v] d IH]; simpl; [done|].
  by destruct (String.eqb k key).
Qed.

Lemma pipe_dict d :
  MathAdd.pipe (PyDict d)
  = match dict_get d "values" (PyList []) with
    | PyList l =>
        if forallb isinstance_int_float l then
          s ← sum l; f ← float s; mret (PyDict [("sum", PyFloat f)])
        else mret MathAdd.error_msg
    | _ => mret MathAdd.error_msg
    end.
Proof. by destruct d. Qed.

Lemma forallb_number_false l :
  (∃ x, x ∈ l ∧ isinstance_int_float x = false) →
  forallb isinstance_int_float l = false.
Proof.
  intros (x & Hin & Hx). apply not_true_is_false. intros Hall.
  rewrite forallb_forall in Hall.
  apply list_elem_of_In in Hin. rewrite (Hall _ Hin) in Hx. discriminate.
Qed.

Lemma pipe_invalid d v :
  dict_lookup d "values" = Some v → invalid_values v →
  MathAdd.pipe (PyDict d) = inr MathAdd.error_msg.
Proof.
  intros Hlook Hbad. rewrite pipe_dict, dict_get_lookup, Hlook. simpl.
  destruct v; try done.
  by rewrite (forallb_number_false _ Hbad).
Qed.

(** On a list of [int] and [bool] items, [sum] is the exact sum. *)
Lemma sum_from_ints l zs a :
  Forall2 (λ v z, as_number v = Some (NInt z)) l zs →
  sum_from (NInt a) l = inr (NInt (a + foldr Z.add 0 zs)).
Proof.
  intros Hall. revert a.
  induction Hall as [|v z l zs Hv _ IH]; intros a; simpl.
  - by rewrite Z.add_0_r.
  - rewrite Hv. simpl. unfold mbind, result_bind, mret, result_ret.
    by rewrite IH, Z.add_assoc.
Qed.

Lemma isinstance_ints l zs :
  Forall2 (λ v z, as_number v = Some (NInt z)) l zs →
  forallb isinstance_int_float l = true.
Proof.
  induction 1 as [|v z l zs Hv _ IH]; simpl; [done|].
  rewrite IH. by destruct v.
Qed.

End math_add.

(** C9, as amended. For [math_add] and every mapping [body]: when
    ["values"] is absent, [pipe] returns [{"sum": 0.0}]; when it is a list
    of numbers ([int], [bool], [float]) for which [float(sum(values))]
    does not raise, [pipe] returns [{"sum": float(sum(values))}], which on
    [int] and [bool] items is the exact sum rounded to a float, 6.0 for
    [[1, 2, 3]]; when it is present and is not a list, or is a list with
    an item that is not a number, [pipe] returns
    [{"error": "body.values must be a list of numbers"}], and the gateway
    sends that mapping with status 200. *)
Theorem math_add_sum_or_error :
  ∀ (d : list (string * value)),
    (dict_lookup d "values" = None →
       MathAdd.pipe (PyDict d) = inr (PyDict [("sum", PyFloat (S754_zero false))]))
    ∧ (∀ l s f,
         dict_lookup d "values" = Some (PyList l) →
         forallb isinstance_int_float l = true →
         sum l = inr s → float s = inr f →
         MathAdd.pipe (PyDict d) = inr (PyDict [("sum", PyFloat f)]))
    ∧ (∀ l zs f,
         dict_lookup d "values" = Some (PyList l) →
         Forall2 (λ v z, as_number v = Some (NInt z)) l zs →
         float_of_int (foldr Z.add 0 zs) = inr f →
         MathAdd.pipe (PyDict d) = inr (PyDict [("sum", PyFloat f)]))
    ∧ MathAdd.pipe (PyDict [("values", PyList [PyInt 1; PyInt 2; PyInt 3])])
      = inr (PyDict [("sum", PyFloat (S754_finite false 6755399441055744 (-50)))])
    ∧ (∀ v,
         dict_lookup d "values" = Some v → invalid_values v →
         MathAdd.pipe (PyDict d) = inr MathAdd.error_msg)
    ∧ (∀ render v st request name payload entry,
         dict_lookup d "values" = Some v → invalid_values v →
         authorized st request →
         _PIPELINES_REGISTRY st !! name = Some entry →
         callable entry = handler MathAdd.pipe →
         body_of payload = PyDict d →
         (app render (POST_pipelines name payload) request st).1
         = Answered
             (mkResponse 200
                (PyDict [("error", PyStr "body.values must be a list of numbers")]))).
Proof.
  intros d.
  assert (Hsum : ∀ l s f,
            dict_lookup d "values" = Some (PyList l) →
            forallb isinstance_int_float l = true →
            sum l = inr s → float s = inr f →
            MathAdd.pipe (PyDict d) = inr (PyDict [("sum", PyFloat f)])).
  { intros l s f Hlook Hall Hs Hf.
    rewrite pipe_dict, dict_get_lookup, Hlook. simpl.
    rewrite Hall, Hs. simpl. unfold mbind, result_bind. by rewrite Hf. }
  split.
  { intros Habsent. by rewrite pipe_dict, dict_get_lookup, Habsent. }
  split; [exact Hsum|].
  split.
  { intros l zs f Hlook Hints Hf.
    apply (Hsum l (NInt (foldr Z.add 0 zs)) f Hlook).
    - by apply (isinstance_ints l zs).
    - unfold sum. by rewrite (sum_from_ints l zs 0 Hints).
    - exact Hf. }
  split; [by vm_compute|].
  split; [apply pipe_invalid|].
  intros render v st request name payload entry Hlook Hbad Hauth Hreg Hcall Hbody.
  assert (Hret : callable entry (body_of payload) = inr MathAdd.error_msg).
  { rewrite Hcall, Hbody. unfold handler. by rewrite (pipe_invalid d v). }
  rewrite (app_authorized_returns _ _ _ _ _ _ _ Hauth Hreg Hret).
  change (response_content MathAdd.error_msg) with MathAdd.error_msg.
  unfold MathAdd.error_msg. by rewrite renders_ascii_text.
Qed.

(** C9 fails as stated. With ["values"] absent, [pipe] returns
    [{"sum": 0.0}], a mapping without the key ["error"]; and on the list
    of numbers [[2 ** 1024]], [pipe] raises instead of returning a sum. *)
Lemma absent_values_sum_to_zero :
  dict_lookup [] "values" = None
  ∧ MathAdd.pipe (PyDict []) = inr (PyDict [("sum", PyFloat (S754_zero false))])
  ∧ dict_lookup [("sum", PyFloat (S754_zero false))] "error" = None
  ∧ forallb isinstance_int_float [PyInt (2 ^ 1024)] = true
  ∧ MathAdd.pipe (PyDict [("values", PyList [PyInt (2 ^ 1024)])])
    = inl (mkExn "OverflowError" "int too large to convert to float").
Proof. repeat split; by vm_compute. Qed.

(** ** The scan *)

Section scan.

Variable base_dir : string.

Implicit Types (st : State) (u : SourceUnit) (l : list SourceUnit).
Implicit Types (reg : gmap string Entry) (k : string).

(** One iteration of the loop, field by field. *)
Lemma load_unit_fields st u :
  (load_unit base_dir st u).1
  = match load_exit u with
    | Some (cls, msg) => inl (NonException cls msg)
    | None => inr ()
    end
  ∧ _PIPELINES_REGISTRY (load_unit base_dir st u).2
    = register base_dir (_PIPELINES_REGISTRY st) u
  ∧ logged (load_unit base_dir st u).2 = logged st ++ skip_warning base_dir u
  ∧ invoked (load_unit base_dir st u).2 = invoked st.
Proof.
  unfold load_unit, register, skip_warning, valid_unit, load_fault, load_exit, load_raises,
    try_load, entry_of.
  destruct (endswith (fname u) ".py"); simpl; [|by rewrite app_nil_r].
  destruct (spec_loader u); simpl; [|by rewrite app_nil_r].
  destruct (exec_module u) as [[e|cls msg]|m]; simpl; [done|by rewrite app_nil_r|].
  destruct (Pipeline m) as [[[e|cls msg]|obj]|]; simpl;
    [done|by rewrite app_nil_r| |by rewrite app_nil_r].
  destruct (obj_pipe obj) as [[pipe_fn|]|]; simpl; by rewrite app_nil_r.
Qed.

(** A unit that raises outside [Exception] is not a valid one, and
    leaves no warning. *)
Lemma load_exit_valid u cls msg : load_exit u = Some (cls, msg) → valid_unit u = None.
Proof.
  unfold load_exit, load_raises, valid_unit. destruct (_ && _); [|done].
  destruct (exec_module u) as [[e|cls' msg']|m]; [done..|].
  by destruct (Pipeline m) as [[[e|cls' msg']|obj]|].
Qed.

Lemma units_run_no_exit l : (∀ u, u ∈ l → load_exit u = None) → units_run l = l.
Proof.
  induction l as [|u l IH]; intros Hall; simpl; [done|].
  rewrite (Hall u) by by left. f_equal. apply IH. intros u' Hin. apply Hall. by right.
Qed.

Lemma scan_exit_None l : scan_exit l = None ↔ ∀ u, u ∈ l → load_exit u = None.
Proof.
  induction l as [|u l IH]; simpl.
  - split; [by intros _ u Hin; inversion Hin | done].
  - destruct (load_exit u) as [exit|] eqn:Hu.
    + split; [done|]. intros Hall. rewrite (Hall u) in Hu by by left. done.
    + rewrite IH. split.
      * intros Hall u' Hin. inversion Hin; subst; [done|by apply Hall].
      * intros Hall u' Hin. apply Hall. by right.
Qed.

Lemma units_run_returns l : scan_exit l = None → units_run l = l.
Proof. intros Hl. apply units_run_no_exit. by apply scan_exit_None. Qed.

(** The units the loop gets to are the first of the listing. *)
Lemma units_run_prefix l : ∃ rest, l = units_run l ++ rest.
Proof.
  induction l as [|u l [rest IH]]; simpl; [by exists []|].
  destruct (load_exit u); [by exists l|].
  exists rest. simpl. by f_equal.
Qed.

Lemma elem_of_units_run l u : u ∈ units_run l → u ∈ l.
Proof.
  intros Hin. destruct (units_run_prefix l) as [rest Hl]. rewrite Hl.
  apply elem_of_app. by left.
Qed.

(** The loop gets to each of the first [n] entries of a listing when
    it gets to [n] entries at all. *)
Lemma units_run_take l n :
  (n ≤ length (units_run l))%nat → units_run (take n l) = take n l.
Proof.
  revert n. induction l as [|u l IH]; intros n Hn; [by destruct n|].
  destruct n as [|n]; [done|]. simpl in *.
  destruct (load_exit u) as [exit|]; simpl in Hn.
  - assert (n = 0%nat) as -> by lia. by rewrite take_0.
  - f_equal. apply IH. lia.
Qed.

Lemma for_each_load_unit_fields l st :
  (for_each (load_unit base_dir) st l).1
  = match scan_exit l with
    | Some (cls, msg) => inl (NonException cls msg)
    | None => inr ()
    end
  ∧ _PIPELINES_REGISTRY (for_each (load_unit base_dir) st l).2
    = foldl (register base_dir) (_PIPELINES_REGISTRY st) (units_run l)
  ∧ logged (for_each (load_unit base_dir) st l).2
    = logged st ++ mjoin (skip_warning base_dir <$> units_run l)
  ∧ invoked (for_each (load_unit base_dir) st l).2 = invoked st.
Proof.
  revert st. induction l as [|u l IH]; intros st; simpl.
  - by rewrite app_nil_r.
  - destruct (load_unit_fields st u) as (Hout & Hreg & Hlog & Hinv).
    destruct (load_unit base_dir st u) as [out st1]; simpl in *.
    destruct (load_exit u) as [[cls msg]|]; subst out; simpl.
    + rewrite Hreg, Hlog, Hinv. by rewrite app_nil_r.
    + destruct (IH st1) as (-> & -> & -> & ->).
      rewrite Hreg, Hlog, Hinv. by rewrite app_assoc.
Qed.

(** A failing unit is not a valid one, and a [.py] unit with a loader
    is a valid one, a failing one, or one that ends the scan. *)
Lemma failing_not_valid u : failing u → valid_unit u = None.
Proof.
  unfold valid_unit. destruct (_ && _); [|done].
  inversion 1 as [e He|m e Hm He|m Hm Hp|m obj Hm Hp Hpipe].
  - by rewrite He.
  - by rewrite Hm, He.
  - by rewrite Hm, Hp.
  - rewrite Hm, Hp. destruct (obj_pipe obj) as [[pipe_fn|]|]; [|done..].
    by destruct (Hpipe pipe_fn).
Qed.

Lemma failing_no_exit u : failing u → load_exit u = None.
Proof.
  unfold load_exit, load_raises. destruct (_ && _); [|done].
  inversion 1 as [e He|m e Hm He|m Hm Hp|m obj Hm Hp Hpipe].
  - by rewrite He.
  - by rewrite Hm, He.
  - by rewrite Hm, Hp.
  - by rewrite Hm, Hp.
Qed.

Lemma valid_or_failing u :
  endswith (fname u) ".py" = true → spec_loader u = true →
  is_Some (valid_unit u) ∨ failing u ∨ is_Some (load_exit u).
Proof.
  intros Hpy Hspec. unfold valid_unit, load_exit, load_raises. rewrite Hpy, Hspec. simpl.
  destruct (exec_module u) as [[e|cls msg]|m] eqn:Hm;
    [right; left; by eapply raises_in_exec_module|by right; right|].
  destruct (Pipeline m) as [[[e|cls msg]|obj]|] eqn:Hp.
  - right; left. by eapply raises_in_constructor.
  - by right; right.
  - destruct (obj_pipe obj) as [[pipe_fn|]|] eqn:Hpipe.
    + by left.
    + right; left. eapply lacks_callable_pipe; [done..|]. intros ?. by rewrite Hpipe.
    + right; left. eapply lacks_callable_pipe; [done..|]. intros ?. by rewrite Hpipe.
  - right; left. by eapply lacks_marker.
Qed.

Lemma load_fault_valid u : is_Some (valid_unit u) → load_fault u = None.
Proof.
  unfold valid_unit, load_fault, load_raises. destruct (_ && _); [|by intros [? ?]].
  destruct (exec_module u) as [e|m]; [by intros [? ?]|].
  by destruct (Pipeline m) as [[e|obj]|]; [intros [? ?]|..].
Qed.

(** The id the scan registers a unit under is its derived id. *)
Lemma pipeline_id_derived u obj : pipeline_id u obj = derived_id u obj.
Proof.
  unfold pipeline_id, derived_id, getattr_or, truthy_attr.
  destruct (obj_id obj) as [a|]; [destruct (attr_truthy a); [done|]|];
    by destruct (obj_name obj) as [b|]; [destruct (attr_truthy b)|].
Qed.

(** Units that are not valid do not count in the fold. *)
Lemma foldl_register_filter l reg :
  foldl (register base_dir) reg l
  = foldl (register base_dir) reg (filter (λ u, is_Some (valid_unit u)) l).
Proof.
  revert reg. induction l as [|u l IH]; intros reg; [done|].
  rewrite filter_cons. destruct (decide (is_Some (valid_unit u))) as [Hv|Hv]; simpl.
  - apply IH.
  - rewrite <- IH. f_equal. unfold register.
    destruct (valid_unit u) as [[obj pipe_fn]|]; [|done].
    by destruct Hv.
Qed.

(** A key stays in the map through the rest of the loop, and keeps its
    entry as long as no later valid unit has the same id. *)
Lemma foldl_register_is_Some l reg k :
  is_Some (reg !! k) → is_Some (foldl (register base_dir) reg l !! k).
Proof.
  revert reg. induction l as [|u l IH]; intros reg Hk; simpl; [done|].
  apply IH. unfold register. destruct (valid_unit u) as [[obj pipe_fn]|]; [|done].
  rewrite lookup_insert. by case_decide.
Qed.

Lemma foldl_register_lookup_other l reg k :
  (∀ u obj pipe_fn, u ∈ l → valid_unit u = Some (obj, pipe_fn) → pipeline_id u obj ≠ k) →
  foldl (register base_dir) reg l !! k = reg !! k.
Proof.
  revert reg. induction l as [|u l IH]; intros reg Hother; simpl; [done|].
  rewrite IH.
  - unfold register. destruct (valid_unit u) as [[obj pipe_fn]|] eqn:Hv; [|done].
    apply lookup_insert_ne. eapply Hother; [|done]. by left.
  - intros u' obj' pipe_fn' Hin. apply Hother. by right.
Qed.

Lemma foldl_register_last_wins l1 u l2 reg obj pipe_fn :
  valid_unit u = Some (obj, pipe_fn) →
  (∀ u' obj' pipe_fn', u' ∈ l2 → valid_unit u' = Some (obj', pipe_fn') →
                       pipeline_id u' obj' ≠ pipeline_id u obj) →
  foldl (register base_dir) reg (l1 ++ u :: l2) !! pipeline_id u obj
  = Some (entry_of base_dir u pipe_fn).
Proof.
  intros Hv Hlater. rewrite foldl_app. simpl.
  rewrite (foldl_register_lookup_other _ _ _ Hlater).
  unfold register at 1. rewrite Hv. apply lookup_insert_eq.
Qed.

Lemma foldl_register_registered l reg u obj pipe_fn :
  u ∈ l → valid_unit u = Some (obj, pipe_fn) →
  is_Some (foldl (register base_dir) reg l !! pipeline_id u obj).
Proof.
  intros Hin Hv. apply list_elem_of_split in Hin as (l1 & l2 & ->).
  rewrite foldl_app. simpl. apply foldl_register_is_Some.
  unfold register at 1. rewrite Hv, lookup_insert_eq. by eexists.
Qed.

(** The scan of a directory that exists. *)
Lemma discover_pipelines_dir fs st :
  base_dir ≠ "" → isdir fs base_dir = true →
  _discover_pipelines fs base_dir st
  = for_each (load_unit base_dir) (set_registry (λ _, ∅) st) (listdir fs base_dir).
Proof.
  intros Hne Hdir. unfold _discover_pipelines.
  apply truthy_str_iff in Hne. by rewrite Hne, Hdir.
Qed.

Lemma discover_pipelines_registry fs st :
  base_dir ≠ "" → isdir fs base_dir = true →
  _PIPELINES_REGISTRY (_discover_pipelines fs base_dir st).2
  = registry_of base_dir (units_run (listdir fs base_dir)).
Proof.
  intros Hne Hdir. rewrite (discover_pipelines_dir _ _ Hne Hdir).
  by destruct (for_each_load_unit_fields (listdir fs base_dir) (set_registry (λ _, ∅) st))
    as (_ & -> & _).
Qed.

(** Whether the scan of a directory that exists returns. *)
Lemma discover_pipelines_outcome fs st :
  base_dir ≠ "" → isdir fs base_dir = true →
  (_discover_pipelines fs base_dir st).1
  = match scan_exit (listdir fs base_dir) with
    | Some (cls, msg) => inl (NonException cls msg)
    | None => inr ()
    end.
Proof.
  intros Hne Hdir. rewrite (discover_pipelines_dir _ _ Hne Hdir).
  by destruct (for_each_load_unit_fields (listdir fs base_dir) (set_registry (λ _, ∅) st))
    as (-> & _).
Qed.

Lemma discover_pipelines_returns fs st :
  base_dir ≠ "" → isdir fs base_dir = true →
  (_discover_pipelines fs base_dir st).1 = inr () →
  units_run (listdir fs base_dir) = listdir fs base_dir.
Proof.
  intros Hne Hdir. rewrite (discover_pipelines_outcome _ _ Hne Hdir).
  destruct (scan_exit (listdir fs base_dir)) as [[cls msg]|] eqn:Hexit; [done|].
  intros _. by apply units_run_returns.
Qed.

End scan.

(** C6, as amended. In the scan of a directory, a unit that raises an
    instance of [Exception] while it is loaded, has no [Pipeline] marker,
    or has no callable [pipe] is skipped, with a warning in the log
    exactly when it raised, and the loop goes on. When no unit of the
    directory raises outside [Exception], the scan returns, the registry
    it leaves is the one the valid units alone would give, the derived id
    of every valid unit is registered, and every valid unit whose
    derived id no later valid unit shares is registered under that id
    with its own entry, whatever the other units do. *)
Theorem scan_isolates_failing_units :
  ∀ fs base_dir st,
    base_dir ≠ "" → isdir fs base_dir = true →
    let l := listdir fs base_dir in
    let scan := _discover_pipelines fs base_dir st in
    scan_exit l = None →
    (∀ st0 u, failing u →
       (load_unit base_dir st0 u).1 = inr ()
       ∧ _PIPELINES_REGISTRY (load_unit base_dir st0 u).2 = _PIPELINES_REGISTRY st0
       ∧ logged (load_unit base_dir st0 u).2 = logged st0 ++ skip_warning base_dir u)
    ∧ (∀ u, skip_warning base_dir u ≠ [] ↔ is_Some (load_fault u))
    ∧ scan.1 = inr ()
    ∧ _PIPELINES_REGISTRY scan.2
      = registry_of base_dir (filter (λ u, is_Some (valid_unit u)) l)
    ∧ (∀ u obj pipe_fn,
         u ∈ l → valid_unit u = Some (obj, pipe_fn) →
         is_Some (_PIPELINES_REGISTRY scan.2 !! derived_id u obj))
    ∧ (∀ l1 u l2 obj pipe_fn,
         l = l1 ++ u :: l2 → valid_unit u = Some (obj, pipe_fn) →
         (∀ u' obj' pipe_fn', u' ∈ l2 → valid_unit u' = Some (obj', pipe_fn') →
                              derived_id u' obj' ≠ derived_id u obj) →
         _PIPELINES_REGISTRY scan.2 !! derived_id u obj = Some (entry_of base_dir u pipe_fn))
    ∧ logged scan.2 = logged st ++ mjoin (skip_warning base_dir <$> l).
Proof.
  intros fs base_dir st Hne Hdir l scan Hexc.
  assert (Hrun : units_run l = l) by by apply units_run_returns.
  assert (Hreg : _PIPELINES_REGISTRY scan.2 = registry_of base_dir l).
  { unfold scan. rewrite (discover_pipelines_registry _ _ _ Hne Hdir). by fold l; rewrite Hrun. }
  split.
  { intros st0 u Hfail. destruct (load_unit_fields base_dir st0 u) as (-> & -> & -> & _).
    rewrite (failing_no_exit _ Hfail). split; [done|]. split; [|done].
    unfold register. by rewrite (failing_not_valid _ Hfail). }
  split.
  { intros u. unfold skip_warning. destruct (load_fault u) as [e|].
    - split; [by eexists | done].
    - split; [done | by intros [? ?]]. }
  split.
  { unfold scan. rewrite (discover_pipelines_outcome _ _ _ Hne Hdir). fold l.
    by rewrite Hexc. }
  split.
  { rewrite Hreg. apply foldl_register_filter. }
  split.
  { intros u obj pipe_fn Hin Hv. rewrite Hreg, <- pipeline_id_derived.
    by eapply foldl_register_registered. }
  split.
  { intros l1 u l2 obj pipe_fn Hl Hv Hlater. rewrite Hreg, <- pipeline_id_derived.
    unfold registry_of. rewrite Hl. apply foldl_register_last_wins; [done|].
    intros u' obj' pipe_fn' Hin' Hv'. rewrite !pipeline_id_derived. by eapply Hlater. }
  unfold scan. rewrite (discover_pipelines_dir _ _ _ Hne Hdir).
  destruct (for_each_load_unit_fields base_dir (listdir fs base_dir)
              (set_registry (λ _, ∅) st)) as (_ & _ & -> & _).
  fold l. by rewrite Hrun.
Qed.

(** C6 as amended, on a directory with a file that does not parse,
    [math_add.py] and a module without [Pipeline]. *)
Lemma scan_isolates_failing_units_witness :
  _PIPELINES_REGISTRY
    (_discover_pipelines (fs_with [unit_broken; unit_math_add; unit_helpers])
       "./pipelines" (load ∅)).2
  = registry_of "./pipelines"
      (filter (λ u, is_Some (valid_unit u)) [unit_broken; unit_math_add; unit_helpers]).
Proof.
  refine (proj1 (proj2 (proj2 (proj2
            (scan_isolates_failing_units
               (fs_with [unit_broken; unit_math_add; unit_helpers])
               "./pipelines" (load ∅) _ _ _))))).
  - discriminate.
  - reflexivity.
  - reflexivity.
Defined.

(** C6 fails as stated, in two ways. The shipped [echo.py] and
    [time_unix.py] are two valid units with the same derived id: after
    the scan the registry holds one entry, that of the unit that came
    later in the listing, and the other valid unit is not registered,
    whichever comes first. And a unit that raises [SystemExit] while it
    is loaded: the [except] clause of the loop names [Exception], so
    the exception ends the scan, and the valid unit after it is not
    registered. *)
Lemma valid_unit_left_unregistered :
  is_Some (valid_unit unit_echo)
  ∧ is_Some (valid_unit unit_time_unix)
  ∧ (_discover_pipelines (fs_with [unit_echo; unit_time_unix]) "./pipelines" (load ∅)).1
    = inr ()
  ∧ _PIPELINES_REGISTRY
      (_discover_pipelines (fs_with [unit_echo; unit_time_unix]) "./pipelines" (load ∅)).2
    = {["time_unix" := mkEntry "pipelines.time_unix" "./pipelines/time_unix.py"
                         time_unix_pipe]}
  ∧ _PIPELINES_REGISTRY
      (_discover_pipelines (fs_with [unit_time_unix; unit_echo]) "./pipelines" (load ∅)).2
    = {["time_unix" := mkEntry "pipelines.echo" "./pipelines/echo.py" time_unix_pipe]}
  ∧ is_Some (valid_unit unit_math_add)
  ∧ (_discover_pipelines (fs_with [unit_exit; unit_math_add]) "./pipelines" (load ∅)).1
    = inl (NonException "SystemExit" "1")
  ∧ _PIPELINES_REGISTRY
      (_discover_pipelines (fs_with [unit_exit; unit_math_add]) "./pipelines" (load ∅)).2
    = ∅
  ∧ logged
      (_discover_pipelines (fs_with [unit_exit; unit_math_add]) "./pipelines" (load ∅)).2
    = [].
Proof.
  split; [by eexists|]. split; [by eexists|].
  split; [reflexivity|]. split; [reflexivity|]. split; [reflexivity|].
  split; [by eexists|].
  repeat split; reflexivity.
Qed.

Example scan_with_failures :
  (_discover_pipelines (fs_with [unit_broken; unit_math_add; unit_helpers])
     "./pipelines" (load ∅)).1
  = inr ()
  ∧ _PIPELINES_REGISTRY
      (_discover_pipelines (fs_with [unit_broken; unit_math_add; unit_helpers])
         "./pipelines" (load ∅)).2
    = {["math_add" := mkEntry "pipelines.math_add" "./pipelines/math_add.py"
                        (handler MathAdd.pipe)]}
  ∧ logged
      (_discover_pipelines (fs_with [unit_broken; unit_math_add; unit_helpers])
         "./pipelines" (load ∅)).2
    = [mkLogRecord "WARNING"
         "Skipping pipeline ./pipelines/broken.py due to load error: invalid syntax"].
Proof. repeat split; reflexivity. Qed.

(** C7, as amended. The registry a scan leaves is the last-write-wins
    fold, in the order of the listing, of registering each valid unit
    under its derived id, where the derived id is the [str()] of the [id]
    attribute if the instance has one and it is truthy, else of the
    [name] attribute if the instance has one and it is truthy, else the
    base filename; so of the valid units that share a derived id, lookup
    gives the entry of the last one. The fold is over the units the
    loop got to: the whole listing when the scan returns. *)
Theorem scan_is_last_write_wins_fold :
  ∀ fs base_dir st,
    base_dir ≠ "" → isdir fs base_dir = true →
    let l := listdir fs base_dir in
    let scan := _discover_pipelines fs base_dir st in
    let reg' := _PIPELINES_REGISTRY scan.2 in
    (scan.1 = inr () → units_run l = l)
    ∧ reg' = registry_of base_dir (units_run l)
    ∧ (scan.1 = inr () → reg' = registry_of base_dir l)
    ∧ (∀ u obj,
         pipeline_id u obj
         = match truthy_attr (obj_id obj) with
           | Some s => s
           | None =>
               match truthy_attr (obj_name obj) with
               | Some s => s
               | None => slice_to_minus3 (fname u)
               end
           end)
    ∧ (∀ l1 u l2 obj pipe_fn,
         units_run l = l1 ++ u :: l2 → valid_unit u = Some (obj, pipe_fn) →
         (∀ u' obj' pipe_fn', u' ∈ l2 → valid_unit u' = Some (obj', pipe_fn') →
                              pipeline_id u' obj' ≠ pipeline_id u obj) →
         reg' !! pipeline_id u obj = Some (entry_of base_dir u pipe_fn)).
Proof.
  intros fs base_dir st Hne Hdir l scan reg'.
  assert (Hreg : reg' = registry_of base_dir (units_run l))
    by apply (discover_pipelines_registry _ _ _ Hne Hdir).
  split; [by apply discover_pipelines_returns|].
  split; [done|].
  split.
  { intros Hret. rewrite Hreg. unfold l.
    by rewrite (discover_pipelines_returns _ _ _ Hne Hdir Hret). }
  split.
  { intros u obj. apply pipeline_id_derived. }
  intros l1 u l2 obj pipe_fn Hl Hv Hlater. rewrite Hreg. unfold registry_of.
  rewrite Hl. by apply foldl_register_last_wins.
Qed.

(** C7 as amended, on a directory where [adder.py], whose derived id is
    ["sum"], comes after [math_add.py]. *)
Lemma scan_is_last_write_wins_fold_witness :
  _PIPELINES_REGISTRY
    (_discover_pipelines (fs_with [unit_math_add; unit_blank_id]) "./pipelines" (load ∅)).2
  = registry_of "./pipelines" [unit_math_add; unit_blank_id].
Proof.
  refine (proj1 (proj2 (scan_is_last_write_wins_fold
                   (fs_with [unit_math_add; unit_blank_id]) "./pipelines" (load ∅) _ _))).
  - discriminate.
  - reflexivity.
Defined.

(** C7 fails as stated. The instance of [adder.py] has an [id]
    attribute, the empty string, and the [name] ["sum"]: by presence its
    derived id is [""], yet the scan registers it under ["sum"], and the
    registry is not the fold taken with the id by presence. *)
Lemma present_empty_id_is_passed_over :
  obj_id (mkPipelineObj (Some (Callable (handler MathAdd.pipe)))
            (Some (attr_of_str "")) (Some (attr_of_str "sum")))
  = Some (attr_of_str "")
  ∧ registry_by_presence "./pipelines" [unit_blank_id] !! ""
    = Some (mkEntry "pipelines.adder" "./pipelines/adder.py" (handler MathAdd.pipe))
  ∧ registry_by_presence "./pipelines" [unit_blank_id] !! "sum" = None
  ∧ _PIPELINES_REGISTRY
      (_discover_pipelines (fs_with [unit_blank_id]) "./pipelines" (load ∅)).2 !! "" = None
  ∧ _PIPELINES_REGISTRY
      (_discover_pipelines (fs_with [unit_blank_id]) "./pipelines" (load ∅)).2 !! "sum"
    = Some (mkEntry "pipelines.adder" "./pipelines/adder.py" (handler MathAdd.pipe))
  ∧ _PIPELINES_REGISTRY
      (_discover_pipelines (fs_with [unit_blank_id]) "./pipelines" (load ∅)).2
    ≠ registry_by_presence "./pipelines" [unit_blank_id].
Proof.
  repeat split; try reflexivity.
  intros Heq. apply (f_equal (λ reg, reg !! "sum")) in Heq.
  discriminate Heq.
Qed.

(** ** The states a scan goes through *)

Section scan_states.

Variable base_dir : string.

Implicit Types (st : State) (l : list SourceUnit).

Lemma length_loop_states l st :
  length (loop_states (load_unit base_dir) st l) = length (units_run l).
Proof.
  revert st. induction l as [|u l IH]; intros st; simpl; [done|].
  destruct (load_unit_fields base_dir st u) as (Hout & _).
  destruct (load_unit base_dir st u) as [out st1]; simpl in *.
  destruct (load_exit u) as [[cls msg]|]; subst out; simpl; [done|].
  by rewrite IH.
Qed.

(** The state after iteration [i] is the loop run on the first [i + 1]
    entries. *)
Lemma loop_states_lookup l st i s :
  loop_states (load_unit base_dir) st l !! i = Some s →
  s = (for_each (load_unit base_dir) st (take (S i) l)).2.
Proof.
  revert st i. induction l as [|u l IH]; intros st i Hi; [done|].
  simpl in Hi. rewrite firstn_cons. simpl for_each.
  destruct (load_unit_fields base_dir st u) as (Hout & _).
  destruct (load_unit base_dir st u) as [out st1]; simpl in *.
  destruct (load_exit u) as [[cls msg]|]; subst out; simpl in *.
  - destruct i as [|i]; [by inversion Hi|done].
  - destruct i as [|i]; simpl in Hi.
    + inversion Hi. by rewrite take_0.
    + by apply IH.
Qed.

Lemma last_loop_states l st :
  last (st :: loop_states (load_unit base_dir) st l)
  = Some (for_each (load_unit base_dir) st l).2.
Proof.
  revert st. induction l as [|u l IH]; intros st; [done|].
  simpl loop_states. simpl for_each.
  destruct (load_unit base_dir st u) as [[e|[]] st1].
  - done.
  - rewrite last_cons_cons. apply IH.
Qed.

End scan_states.

(** C5, as amended. A scan does not swap a finished map in: it empties
    the registry in place and then registers the valid units one at a
    time, in the order of the listing. The states it goes through are
    the emptied one and one more for each unit the loop gets to; in the
    state of step [i] the registry is the fold of the first [i] units
    of the listing alone, the empty map at step 0; and the last of them
    is the state the scan leaves. *)
Theorem scan_rebuilds_in_place :
  ∀ fs base_dir st,
    base_dir ≠ "" → isdir fs base_dir = true →
    let l := listdir fs base_dir in
    let states := _discover_pipelines_states fs base_dir st in
    length states = S (length (units_run l))
    ∧ (∃ s0, states !! 0%nat = Some s0 ∧ _PIPELINES_REGISTRY s0 = ∅)
    ∧ (∀ i s, states !! i = Some s →
              _PIPELINES_REGISTRY s = registry_of base_dir (take i l))
    ∧ last states = Some (_discover_pipelines fs base_dir st).2.
Proof.
  intros fs base_dir st Hne Hdir l states.
  assert (Hstates : states
                    = set_registry (λ _, ∅) st
                      :: loop_states (load_unit base_dir) (set_registry (λ _, ∅) st) l).
  { unfold states, _discover_pipelines_states.
    apply truthy_str_iff in Hne. by rewrite Hne, Hdir. }
  rewrite Hstates. split.
  { simpl. by rewrite length_loop_states. }
  split; [by eexists|].
  split.
  { intros [|i] s Hs; simpl in Hs.
    - inversion Hs. by rewrite take_0.
    - pose proof (lookup_lt_Some _ _ _ Hs) as Hlen.
      rewrite length_loop_states in Hlen.
      apply loop_states_lookup in Hs as ->.
      destruct (for_each_load_unit_fields base_dir (take (S i) l)
                     (set_registry (λ _, ∅) st)) as (_ & -> & _).
      rewrite units_run_take by lia. done. }
  rewrite last_loop_states. by rewrite (discover_pipelines_dir _ _ _ Hne Hdir).
Qed.

(** C5 as amended, on a re-scan of a directory that holds a file that
    does not parse and [math_add.py]. *)
Lemma scan_rebuilds_in_place_witness :
  length (_discover_pipelines_states (fs_with [unit_broken; unit_math_add])
            "./pipelines" st_shipped)
  = 3%nat.
Proof.
  refine (proj1 (scan_rebuilds_in_place (fs_with [unit_broken; unit_math_add])
                   "./pipelines" st_shipped _ _)).
  - discriminate.
  - reflexivity.
Defined.

(** C5 fails as stated. On a re-scan from a registry with the ids
    ["math_add"] and ["tags"], the first state the scan goes through has
    an empty registry, which is neither the map before the scan nor the
    map after it. *)
Lemma scan_goes_through_cleared_registry :
  ∃ s,
    s ∈ _discover_pipelines_states (fs_with [unit_broken; unit_math_add])
          "./pipelines" st_shipped
    ∧ _PIPELINES_REGISTRY s = ∅
    ∧ _PIPELINES_REGISTRY s ≠ _PIPELINES_REGISTRY st_shipped
    ∧ _PIPELINES_REGISTRY s
      ≠ _PIPELINES_REGISTRY
          (_discover_pipelines (fs_with [unit_broken; unit_math_add])
             "./pipelines" st_shipped).2.
Proof.
  exists (set_registry (λ _, ∅) st_shipped).
  split; [by left|]. split; [done|].
  split; intros Heq; apply (f_equal (λ reg, reg !! "math_add")) in Heq;
    discriminate Heq.
Qed.

(** ** More on the scan *)

Section scan_more.

Variable base_dir : string.

Implicit Types (st : State) (u : SourceUnit) (l : list SourceUnit).
Implicit Types (reg : gmap string Entry) (k : string).

(** Where an entry of the fold comes from. *)
Lemma foldl_register_lookup_Some l reg k entry :
  foldl (register base_dir) reg l !! k = Some entry →
  reg !! k = Some entry
  ∨ ∃ u obj pipe_fn,
      u ∈ l ∧ valid_unit u = Some (obj, pipe_fn)
      ∧ pipeline_id u obj = k ∧ entry = entry_of base_dir u pipe_fn.
Proof.
  revert reg. induction l as [|u l IH]; intros reg Hk; simpl in Hk; [by left|].
  destruct (IH _ Hk) as [Hreg|(u' & obj & pipe_fn & Hin & Hv & Hid & He)].
  - unfold register in Hreg.
    destruct (valid_unit u) as [[obj pipe_fn]|] eqn:Hv; [|by left].
    rewrite lookup_insert in Hreg. case_decide as Hid.
    + right. exists u, obj, pipe_fn. repeat split; [by left|done..|congruence].
    + by left.
  - right. exists u', obj, pipe_fn. repeat split; [by right|done..].
Qed.

Lemma valid_unit_py u obj pipe_fn :
  valid_unit u = Some (obj, pipe_fn) → endswith (fname u) ".py" = true.
Proof.
  unfold valid_unit. by destruct (endswith (fname u) ".py").
Qed.

Lemma size_foldl_register l reg :
  (size (foldl (register base_dir) reg l)
   ≤ size reg + length (filter (λ u, is_Some (valid_unit u)) l))%nat.
Proof.
  revert reg. induction l as [|u l IH]; intros reg; simpl; [lia|].
  rewrite filter_cons. etrans; [apply IH|].
  unfold register. destruct (valid_unit u) as [[obj pipe_fn]|] eqn:Hv.
  - rewrite decide_True by (by eexists). simpl.
    pose proof (map_size_insert (pipeline_id u obj) (entry_of base_dir u pipe_fn) reg) as Hsz.
    destruct (reg !! pipeline_id u obj); simpl in Hsz; unfold id in Hsz; lia.
  - rewrite decide_False by (by intros [? ?]). lia.
Qed.

End scan_more.

Lemma discover_pipelines_no_dir fs base_dir st :
  base_dir = "" ∨ isdir fs base_dir = false →
  _discover_pipelines fs base_dir st
  = (inr (),
     log "INFO" ("PIPELINES_DIR not present or not a directory: " +:+ base_dir)
       (set_registry (λ _, ∅) st)).
Proof.
  intros Hno. unfold _discover_pipelines.
  destruct Hno as [-> | ->]; [done|]. by rewrite orb_true_r.
Qed.

Lemma discover_pipelines_registry_cases fs base_dir st :
  _PIPELINES_REGISTRY (_discover_pipelines fs base_dir st).2
  = if decide (base_dir ≠ "" ∧ isdir fs base_dir = true)
    then registry_of base_dir (units_run (listdir fs base_dir)) else ∅.
Proof.
  case_decide as Hdir.
  - destruct Hdir as [Hne Hdir]. by apply discover_pipelines_registry.
  - rewrite discover_pipelines_no_dir; [done|].
    destruct (decide (base_dir = "")) as [|Hne]; [by left|right].
    destruct (isdir fs base_dir); [|done]. by destruct Hdir.
Qed.

Lemma authorized_after_scan fs base_dir st request :
  authorized st request → authorized (_discover_pipelines fs base_dir st).2 request.
Proof. unfold authorized. by rewrite discover_pipelines_API_KEY. Qed.

(** X1. A scan against an empty path or a path that is not a directory
    returns, empties the registry, whatever it held, and logs one INFO
    record; after it the listing is empty and every id is answered
    404. *)
Theorem scan_of_missing_directory_wipes_registry :
  ∀ fs base_dir st request,
    base_dir = "" ∨ isdir fs base_dir = false →
    authorized st request →
    let scan := _discover_pipelines fs base_dir st in
    let st' := scan.2 in
    _PIPELINES_REGISTRY st' = ∅
    ∧ logged st'
      = logged st ++ [mkLogRecord "INFO"
                        ("PIPELINES_DIR not present or not a directory: " +:+ base_dir)]
    ∧ (∀ render,
         (app render GET_pipelines request st').1
         = Answered (mkResponse 200 (PyDict [("pipelines", PyList [])])))
    ∧ (∀ render name payload,
         (app render (POST_pipelines name payload) request st').1
         = Answered
             (mkResponse 404
                (PyDict [("detail", PyStr ("pipeline '" +:+ name +:+ "' not found"))])))
    ∧ scan.1 = inr ().
Proof.
  intros fs base_dir st request Hno Hauth scan st'.
  assert (Hreg : _PIPELINES_REGISTRY st' = ∅).
  { unfold st', scan. by rewrite (discover_pipelines_no_dir _ _ _ Hno). }
  destruct (authorized_after_scan fs base_dir st request Hauth) as [Hhdr Hne].
  fold scan in Hhdr, Hne. fold st' in Hhdr, Hne.
  split; [done|]. split.
  { unfold st', scan. by rewrite (discover_pipelines_no_dir _ _ _ Hno). }
  split; [|split].
  - intros render. rewrite (app_authorized _ _ _ _ Hhdr Hne).
    unfold _pipelines_list, mbind, gw_bind, gw_get, mret, gw_ret. simpl.
    rewrite Hreg. reflexivity.
  - intros render name payload.
    rewrite (app_authorized _ _ _ _ Hhdr Hne), pipelines_call_not_found; [done|].
    by rewrite Hreg.
  - unfold scan. by rewrite (discover_pipelines_no_dir _ _ _ Hno).
Qed.

(** X1 on a re-scan of the path [./missing] from the state with
    [math_add] and [tags]. *)
Lemma scan_of_missing_directory_wipes_registry_witness :
  _PIPELINES_REGISTRY
    (_discover_pipelines (fs_with [unit_math_add]) "./missing" st_shipped).2 = ∅.
Proof.
  refine (proj1 (scan_of_missing_directory_wipes_registry (fs_with [unit_math_add])
                   "./missing" st_shipped (request_with_key "s3cret") _ _)).
  - right. reflexivity.
  - split; [reflexivity | discriminate].
Defined.

(** X2. What a scan leaves in the registry depends on the directory
    alone, not on what the registry held: two scans from any two states
    agree, and scanning again changes nothing. *)
Theorem scan_registry_depends_on_directory_only :
  ∀ fs base_dir st1 st2,
    _PIPELINES_REGISTRY (_discover_pipelines fs base_dir st1).2
    = _PIPELINES_REGISTRY (_discover_pipelines fs base_dir st2).2
    ∧ _PIPELINES_REGISTRY
        (_discover_pipelines fs base_dir (_discover_pipelines fs base_dir st1).2).2
      = _PIPELINES_REGISTRY (_discover_pipelines fs base_dir st1).2.
Proof.
  intros fs base_dir st1 st2. by rewrite !discover_pipelines_registry_cases.
Qed.

(** X3. Every entry of the registry after a scan was put there by a
    valid unit of the listing: its key is the derived id of the unit, its
    ["callable"] the [pipe] of the unit's instance, its ["file"] the
    directory joined with the file name, which ends in [.py], and its
    ["module"] is [pipelines.] followed by the file name without its last
    three characters. *)
Theorem scanned_entry_comes_from_valid_unit :
  ∀ fs base_dir st k entry,
    _PIPELINES_REGISTRY (_discover_pipelines fs base_dir st).2 !! k = Some entry →
    ∃ u obj pipe_fn,
      u ∈ listdir fs base_dir
      ∧ valid_unit u = Some (obj, pipe_fn)
      ∧ endswith (fname u) ".py" = true
      ∧ pipeline_id u obj = k
      ∧ callable entry = pipe_fn
      ∧ file entry = path_join base_dir (fname u)
      ∧ module entry = "pipelines." +:+ slice_to_minus3 (fname u).
Proof.
  intros fs base_dir st k entry. rewrite discover_pipelines_registry_cases.
  case_decide as Hdir; [|by rewrite lookup_empty].
  intros Hk. apply foldl_register_lookup_Some in Hk as [Hk|Hk];
    [by rewrite lookup_empty in Hk|].
  destruct Hk as (u & obj & pipe_fn & Hin & Hv & Hid & ->).
  exists u, obj, pipe_fn. repeat split; try done.
  - by apply elem_of_units_run.
  - by eapply valid_unit_py.
Qed.

(** X3 on the entry of [math_add] after a scan with failing units. *)
Lemma scanned_entry_comes_from_valid_unit_witness :
  ∃ u obj pipe_fn,
    u ∈ [unit_broken; unit_math_add; unit_helpers]
    ∧ valid_unit u = Some (obj, pipe_fn)
    ∧ endswith (fname u) ".py" = true
    ∧ pipeline_id u obj = "math_add"
    ∧ handler MathAdd.pipe = pipe_fn
    ∧ "./pipelines/math_add.py" = path_join "./pipelines" (fname u)
    ∧ "pipelines.math_add" = "pipelines." +:+ slice_to_minus3 (fname u).
Proof.
  apply (scanned_entry_comes_from_valid_unit
           (fs_with [unit_broken; unit_math_add; unit_helpers]) "./pipelines" (load ∅)
           "math_add"
           (mkEntry "pipelines.math_add" "./pipelines/math_add.py" (handler MathAdd.pipe))).
  reflexivity.
Defined.

Lemma no_py_no_warning base_dir (l : list SourceUnit) :
  (∀ u, u ∈ l → endswith (fname u) ".py" = false) →
  mjoin (skip_warning base_dir <$> l) = [].
Proof.
  induction l as [|u l IH]; intros Hpy; [done|].
  rewrite fmap_cons. change (mjoin (?x :: ?xs)) with (x ++ mjoin xs).
  rewrite IH by (intros u' Hin; apply Hpy; by right).
  unfold skip_warning, load_fault, load_raises. by rewrite (Hpy u) by (by left).
Qed.

(** X4. When no unit of the listing is valid the scan leaves an empty
    registry; when moreover no file name ends in [.py], nothing is loaded
    and the log of a scanned directory gets no record. *)
Theorem scan_without_valid_units_is_empty :
  ∀ fs base_dir st,
    (∀ u, u ∈ listdir fs base_dir → valid_unit u = None) →
    _PIPELINES_REGISTRY (_discover_pipelines fs base_dir st).2 = ∅
    ∧ (base_dir ≠ "" → isdir fs base_dir = true →
       (∀ u, u ∈ listdir fs base_dir → endswith (fname u) ".py" = false) →
       logged (_discover_pipelines fs base_dir st).2 = logged st).
Proof.
  intros fs base_dir st Hnone. split.
  - rewrite discover_pipelines_registry_cases. case_decide; [|done].
    unfold registry_of. apply map_eq. intros k.
    rewrite foldl_register_lookup_other; [done|].
    intros u obj pipe_fn Hin Hv. apply elem_of_units_run in Hin.
    by rewrite (Hnone u Hin) in Hv.
  - intros Hne Hdir Hpy. rewrite (discover_pipelines_dir _ _ _ Hne Hdir).
    destruct (for_each_load_unit_fields base_dir (listdir fs base_dir)
                (set_registry (λ _, ∅) st)) as (_ & _ & -> & _).
    rewrite no_py_no_warning; [apply app_nil_r|].
    intros u Hin. apply Hpy. by apply elem_of_units_run.
Qed.

(** X4 on a directory that holds only a module without [Pipeline]. *)
Lemma scan_without_valid_units_is_empty_witness :
  _PIPELINES_REGISTRY
    (_discover_pipelines (fs_with [unit_helpers]) "./pipelines" st_shipped).2 = ∅.
Proof.
  refine (proj1 (scan_without_valid_units_is_empty (fs_with [unit_helpers])
                   "./pipelines" st_shipped _)).
  intros u Hin. apply list_elem_of_singleton in Hin as ->. reflexivity.
Defined.

Lemma length_filter_units_run (P : SourceUnit → Prop) `{!∀ u, Decision (P u)}
    (l : list SourceUnit) :
  (length (filter P (units_run l)) ≤ length (filter P l))%nat.
Proof.
  destruct (units_run_prefix l) as [rest Hl]. rewrite Hl at 2.
  rewrite filter_app, length_app. lia.
Qed.

(** X5. The registry after a scan has at most as many entries as the
    listing has valid units. *)
Theorem scan_registry_size_bound :
  ∀ fs base_dir st,
    (size (_PIPELINES_REGISTRY (_discover_pipelines fs base_dir st).2)
     ≤ length (filter (λ u, is_Some (valid_unit u)) (listdir fs base_dir)))%nat.
Proof.
  intros fs base_dir st. rewrite discover_pipelines_registry_cases.
  case_decide.
  - unfold registry_of. etrans; [apply size_foldl_register|].
    rewrite map_size_empty. simpl. apply length_filter_units_run.
  - rewrite map_size_empty. lia.
Qed.

(** ** Scan and dispatch together *)

Lemma registry_of_is_Some base_dir (l : list SourceUnit) k :
  is_Some (registry_of base_dir l !! k)
  ↔ ∃ u obj pipe_fn, u ∈ l ∧ valid_unit u = Some (obj, pipe_fn) ∧ pipeline_id u obj = k.
Proof.
  unfold registry_of. split.
  - intros [entry Hk]. apply foldl_register_lookup_Some in Hk as [Hk|Hk];
      [by rewrite lookup_empty in Hk|].
    destruct Hk as (u & obj & pipe_fn & Hin & Hv & Hid & _). by exists u, obj, pipe_fn.
  - intros (u & obj & pipe_fn & Hin & Hv & <-). by eapply foldl_register_registered.
Qed.

(** X6. After the scan of a directory, an authorized [GET /pipelines]
    lists, in strictly ascending order, exactly the derived ids of the
    valid units of the listing: of the whole listing when the scan
    returned, and of the units the loop got to in any case. *)
Theorem listing_after_scan :
  ∀ render fs base_dir st request,
    base_dir ≠ "" → isdir fs base_dir = true →
    authorized st request →
    let scan := _discover_pipelines fs base_dir st in
    ∃ ids,
      (app render GET_pipelines request scan.2).1
      = Answered (mkResponse 200 (PyDict [("pipelines", PyList (PyStr <$> ids))]))
      ∧ StronglySorted (strict String.le) ids
      ∧ (∀ k, k ∈ ids
              ↔ ∃ u obj pipe_fn,
                  u ∈ units_run (listdir fs base_dir)
                  ∧ valid_unit u = Some (obj, pipe_fn) ∧ pipeline_id u obj = k)
      ∧ (scan.1 = inr () →
         ∀ k, k ∈ ids
              ↔ ∃ u obj pipe_fn,
                  u ∈ listdir fs base_dir
                  ∧ valid_unit u = Some (obj, pipe_fn) ∧ pipeline_id u obj = k).
Proof.
  intros render fs base_dir st request Hne Hdir Hauth scan.
  destruct (authorized_after_scan fs base_dir st request Hauth) as [Hhdr Hkey].
  fold scan in Hhdr, Hkey.
  exists (sorted (keys (_PIPELINES_REGISTRY scan.2))).
  split; [by rewrite (app_authorized _ _ _ _ Hhdr Hkey)|].
  split.
  { apply StronglySorted_strict; [apply StronglySorted_sorted|].
    apply NoDup_sorted, NoDup_keys. }
  assert (Hids : ∀ k, k ∈ sorted (keys (_PIPELINES_REGISTRY scan.2))
                      ↔ ∃ u obj pipe_fn,
                          u ∈ units_run (listdir fs base_dir)
                          ∧ valid_unit u = Some (obj, pipe_fn) ∧ pipeline_id u obj = k).
  { intros k. rewrite elem_of_sorted, elem_of_keys. unfold scan.
    rewrite (discover_pipelines_registry _ _ _ Hne Hdir). apply registry_of_is_Some. }
  split; [done|].
  intros Hret k. rewrite Hids.
  by rewrite (discover_pipelines_returns _ _ _ Hne Hdir Hret).
Qed.

(** X6 on a directory with a file that does not parse, [math_add.py]
    and a module without [Pipeline]. *)
Lemma listing_after_scan_witness :
  ∃ ids,
    (app renders_all GET_pipelines (request_with_key "s3cret")
       (_discover_pipelines (fs_with [unit_broken; unit_math_add; unit_helpers])
          "./pipelines" st_shipped).2).1
    = Answered (mkResponse 200 (PyDict [("pipelines", PyList (PyStr <$> ids))])).
Proof.
  destruct (listing_after_scan renders_all
              (fs_with [unit_broken; unit_math_add; unit_helpers])
              "./pipelines" st_shipped (request_with_key "s3cret")) as (ids & Hids & _).
  - discriminate.
  - reflexivity.
  - split; [reflexivity | discriminate].
  - by exists ids.
Defined.

(** X7. After the scan of a directory, consider the derived id of a
    valid unit that no later valid unit shares, when that id is one the
    call route binds: a path segment, not empty and without [/]. An
    authorized [POST /pipelines/{id}] with it is served by the [pipe]
    of that unit: 500 with the text of the exception when the [pipe]
    raises an instance of [Exception] or when the rendering of the
    body raises; no answer from the gateway when the [pipe] raises
    outside [Exception]; else 200 with the value, wrapped under
    ["result"] unless it is a dict. *)
Theorem dispatch_after_scan :
  ∀ render fs base_dir st request l1 u l2 obj pipe_fn payload,
    base_dir ≠ "" → isdir fs base_dir = true →
    authorized st request →
    units_run (listdir fs base_dir) = l1 ++ u :: l2 →
    valid_unit u = Some (obj, pipe_fn) →
    (∀ u' obj' pipe_fn', u' ∈ l2 → valid_unit u' = Some (obj', pipe_fn') →
                         derived_id u' obj' ≠ derived_id u obj) →
    path_segment (derived_id u obj) →
    (app render (POST_pipelines (derived_id u obj) payload) request
       (_discover_pipelines fs base_dir st).2).1
    = match pipe_fn (body_of payload) with
      | inl (Exception e) =>
          Answered (mkResponse 500 (PyDict [("detail", PyStr (exc_str e))]))
      | inl (NonException cls msg) => Escaped cls msg
      | inr v =>
          match render (if isinstance_dict v then v else PyDict [("result", v)]) with
          | Some e => Answered (mkResponse 500 (PyDict [("detail", PyStr (exc_str e))]))
          | None =>
              Answered (mkResponse 200 (if isinstance_dict v then v else PyDict [("result", v)]))
          end
      end.
Proof.
  intros render fs base_dir st request l1 u l2 obj pipe_fn payload
    Hne Hdir Hauth Hl Hv Hlater _.
  pose proof (authorized_after_scan fs base_dir st request Hauth) as Hauth'.
  set (st' := (_discover_pipelines fs base_dir st).2) in *.
  assert (Hreg : _PIPELINES_REGISTRY st' !! derived_id u obj
                 = Some (entry_of base_dir u pipe_fn)).
  { unfold st'. rewrite (discover_pipelines_registry _ _ _ Hne Hdir). unfold registry_of.
    rewrite Hl, <- pipeline_id_derived. apply foldl_register_last_wins; [done|].
    intros u' obj' pipe_fn' Hin' Hv'. rewrite !pipeline_id_derived. by eapply Hlater. }
  rewrite (app_post_cases _ _ _ _ _ Hauth'), Hreg. simpl callable.
  destruct (pipe_fn (body_of payload)) as [[e|cls msg]|v]; [done..|].
  unfold response_content. by destruct (render _).
Qed.

(** X7 on [math_add.py] between a file that does not parse and a
    module without [Pipeline], with the body [{"values": [1, 2, 3]}]. *)
Lemma dispatch_after_scan_witness :
  (app renders_all
     (POST_pipelines "math_add" (Some [("values", PyList [PyInt 1; PyInt 2; PyInt 3])]))
     (request_with_key "s3cret")
     (_discover_pipelines (fs_with [unit_broken; unit_math_add; unit_helpers])
        "./pipelines" st_shipped).2).1
  = Answered
      (mkResponse 200 (PyDict [("sum", PyFloat (S754_finite false 6755399441055744 (-50)))])).
Proof.
  refine (dispatch_after_scan renders_all
            (fs_with [unit_broken; unit_math_add; unit_helpers])
            "./pipelines" st_shipped (request_with_key "s3cret")
            [unit_broken] unit_math_add [unit_helpers]
            (mkPipelineObj (Some (Callable (handler MathAdd.pipe)))
               (Some (attr_of_str MathAdd.id)) (Some (attr_of_str MathAdd.name)))
            (handler MathAdd.pipe)
            (Some [("values", PyList [PyInt 1; PyInt 2; PyInt 3])]) _ _ _ _ _ _ _).
  - discriminate.
  - reflexivity.
  - split; [reflexivity | discriminate].
  - reflexivity.
  - reflexivity.
  - intros u' obj' pipe_fn' Hin. apply list_elem_of_singleton in Hin as ->.
    discriminate.
  - split; [discriminate | reflexivity].
Defined.

(** ** What a request leaves behind *)

Lemma app_cases render route request st :
  (api_dependency (API_KEY st) request = inl Unauthorized
   ∧ app render route request st = (Answered (http_exception_handler Unauthorized), st))
  ∨ (authorized st request ∧ route = GET_pipelines
     ∧ (app render route request st).2 = st
     ∧ status_of (app render route request st).1 = Some 200)
  ∨ (∃ name payload,
       authorized st request ∧ route = POST_pipelines name payload
       ∧ _PIPELINES_REGISTRY st !! name = None
       ∧ (app render route request st).2 = st
       ∧ status_of (app render route request st).1 = Some 404)
  ∨ (∃ name payload entry,
       authorized st request ∧ route = POST_pipelines name payload
       ∧ _PIPELINES_REGISTRY st !! name = Some entry
       ∧ (((status_of (app render route request st).1 = Some 200
            ∨ status_of (app render route request st).1 = None)
           ∧ (app render route request st).2 = record_call name (body_of payload) st)
          ∨ (∃ e, status_of (app render route request st).1 = Some 500
                  ∧ (app render route request st).2
                    = log "ERROR"
                        ("Pipeline '" +:+ name +:+ "' execution error: " +:+ exc_str e)
                        (record_call name (body_of payload) st)))).
Proof.
  destruct (decide (headers request !! "x-api-key" = Some (API_KEY st) ∧ API_KEY st ≠ ""))
    as [Hauth|Hno].
  - right. destruct route as [|name payload].
    { left. destruct Hauth as [Hhdr Hkey]. by rewrite (app_authorized _ _ _ _ Hhdr Hkey). }
    right. rewrite (app_post_cases _ _ _ _ _ Hauth).
    destruct (_PIPELINES_REGISTRY st !! name) as [entry|] eqn:Hreg.
    + right. exists name, payload, entry. repeat split; try done; try apply Hauth.
      destruct (callable entry (body_of payload)) as [[e|cls msg]|v].
      * right. by exists e.
      * left. split; [by right|done].
      * destruct (render _) as [e|]; [right; by exists e | left; split; [by left|done]].
    + left. exists name, payload. repeat split; try done; apply Hauth.
  - left. pose proof (api_dependency_rejects _ _ Hno) as Hrej.
    split; [done|]. by apply app_unauthorized.
Qed.

(** X8. A request reaches a registered callable only as an authorized
    [POST] to a registered id, and then exactly once, with the payload,
    or [{}] when there is none, as its [body]; a [GET /pipelines], a
    request without the secret and a [POST] to an unknown id call
    nothing. *)
Theorem callable_invoked_only_by_authorized_post :
  ∀ render route request st,
    (∀ name payload entry,
       route = POST_pipelines name payload → authorized st request →
       _PIPELINES_REGISTRY st !! name = Some entry →
       invoked (app render route request st).2 = invoked st ++ [(name, body_of payload)])
    ∧ (route = GET_pipelines
       ∨ ¬ authorized st request
       ∨ (∃ name payload, route = POST_pipelines name payload
                          ∧ _PIPELINES_REGISTRY st !! name = None) →
       invoked (app render route request st).2 = invoked st).
Proof.
  intros render route request st.
  destruct (app_cases render route request st)
    as [[Hrej Happ]|[(Hauth & -> & Hst & _)
       |[(name & payload & Hauth & -> & Hreg & Hst & _)
        |(name & payload & entry & Hauth & -> & Hreg & Hres)]]].
  - split.
    + intros name payload entry _ [Hhdr Hkey] _.
      by rewrite (api_dependency_accepts _ _ Hhdr Hkey) in Hrej.
    + intros _. by rewrite Happ.
  - split; [done|]. intros _. by rewrite Hst.
  - split.
    + intros name' payload' entry [= <- <-] _ Hreg'. congruence.
    + intros _. by rewrite Hst.
  - assert (Hinv : invoked (app render (POST_pipelines name payload) request st).2
                   = invoked st ++ [(name, body_of payload)]).
    { destruct Hres as [[_ ->]|(e & _ & ->)]; done. }
    split.
    + by intros name' payload' entry' [= <- <-] _ _.
    + intros [|[Hno|(name' & payload' & [= <- <-] & Hnone)]]; [done|by destruct Hno|].
      congruence.
Qed.

(** X9. The gateway writes to the log exactly when it answers 500, and
    what it writes then is one ERROR record; a request never removes a
    record. *)
Theorem error_logged_iff_status_500 :
  ∀ render route request st,
    let served := app render route request st in
    (status_of served.1 = Some 500 ↔ logged served.2 ≠ logged st)
    ∧ (logged served.2 = logged st
       ∨ ∃ text, logged served.2 = logged st ++ [mkLogRecord "ERROR" text]).
Proof.
  intros render route request st served. unfold served.
  assert (Hsnoc : ∀ (l : list LogRecord) x, l ++ [x] ≠ l).
  { intros l x Heq. apply (f_equal length) in Heq. rewrite length_app in Heq.
    simpl in Heq. lia. }
  destruct (app_cases render route request st)
    as [[Hrej Happ]|[(Hauth & -> & Hst & Hcode)
       |[(name & payload & Hauth & -> & Hreg & Hst & Hcode)
        |(name & payload & entry & Hauth & -> & Hreg & Hres)]]].
  - rewrite Happ. simpl. split; [|by left]. split; [discriminate|done].
  - rewrite Hst, Hcode. split; [|by left]. split; [discriminate|done].
  - rewrite Hst, Hcode. split; [|by left]. split; [discriminate|done].
  - destruct Hres as [[[Hcode|Hcode] ->]|(e & Hcode & ->)]; rewrite Hcode; simpl.
    + split; [|by left]. split; [discriminate|done].
    + split; [|by left]. split; [discriminate|done].
    + split; [|right; by eexists]. split; [intros _; apply Hsnoc|done].
Qed.

(** ** File names, module names and paths *)

Section strings.

Implicit Types (s x suffix : string).

Lemma substring_0_length s : String.substring 0 (String.length s) s = s.
Proof. induction s as [|c s IH]; simpl; [done|]. by rewrite IH. Qed.

Lemma substring_split s (n m : nat) :
  (n + m)%nat = String.length s →
  String.substring 0 n s +:+ String.substring n m s = s.
Proof.
  revert n m. induction s as [|c s IH]; intros n m Hlen; simpl in Hlen.
  - destruct n, m; simpl; done || lia.
  - destruct n as [|n]; simpl.
    + destruct m as [|m]; [lia|].
      assert (m = String.length s) as -> by lia.
      simpl. rewrite substring_0_length. reflexivity.
    + rewrite <- (IH n m) at 3 by lia. reflexivity.
Qed.

Lemma string_app_cons c x s : String c x +:+ s = String c (x +:+ s).
Proof. reflexivity. Qed.

Lemma string_app_nil_l s : "" +:+ s = s.
Proof. reflexivity. Qed.

Lemma string_length_app x s : String.length (x +:+ s) = (String.length x + String.length s)%nat.
Proof.
  induction x as [|c x IH]; [done|]. rewrite string_app_cons. simpl. by rewrite IH.
Qed.

Lemma substring_app_r x s : String.substring (String.length x) (String.length s) (x +:+ s) = s.
Proof.
  induction x as [|c x IH]; [apply substring_0_length|].
  rewrite string_app_cons. simpl. apply IH.
Qed.

(** [s.endswith(suffix)] holds exactly of the strings that are
    something followed by [suffix]. *)
Lemma endswith_iff s suffix : endswith s suffix = true ↔ ∃ x, s = x +:+ suffix.
Proof.
  unfold endswith. split.
  - intros [Hle Heq]%andb_prop.
    apply Nat.leb_le in Hle. apply String.eqb_eq in Heq.
    exists (String.substring 0 (String.length s - String.length suffix) s).
    pose proof (substring_split s (String.length s - String.length suffix)
                  (String.length suffix)) as Hsplit.
    rewrite Heq in Hsplit. symmetry. apply Hsplit. lia.
  - intros [x ->]. rewrite string_length_app.
    apply andb_true_intro. split; [apply Nat.leb_le; lia|].
    replace (String.length x + String.length suffix - String.length suffix)%nat
      with (String.length x) by lia.
    rewrite substring_app_r. apply String.eqb_refl.
Qed.

Lemma string_app_assoc x s suffix : (x +:+ s) +:+ suffix = x +:+ (s +:+ suffix).
Proof. induction x as [|c x IH]; [done|]. by rewrite !string_app_cons, IH. Qed.

(** [fname[:-3]] takes [.py] off a name that ends in it. *)
Lemma slice_to_minus3_py s : endswith s ".py" = true → slice_to_minus3 s +:+ ".py" = s.
Proof.
  unfold endswith, slice_to_minus3. intros [Hle Heq]%andb_prop.
  apply Nat.leb_le in Hle. apply String.eqb_eq in Heq. simpl in Hle, Heq.
  pose proof (substring_split s (String.length s - 3) 3) as Hsplit.
  rewrite Heq in Hsplit. apply Hsplit. lia.
Qed.

(** [os.path.join(a, b)] ends with [b]. *)
Lemma path_join_suffix (a b : string) : ∃ x, path_join a b = x +:+ b.
Proof.
  unfold path_join. destruct (String.prefix "/" b); [by exists ""|].
  destruct (_ || _); [by exists a|].
  exists (a +:+ "/"). by rewrite string_app_assoc.
Qed.

End strings.

(** X10. Every entry of the registry after a scan names the file it was
    loaded from and its module consistently: for some stem, the ["file"]
    is a path that ends with the stem followed by [.py], and the
    ["module"] is [pipelines.] followed by that same stem. *)
Theorem scanned_entry_file_and_module_agree :
  ∀ fs base_dir st k entry,
    _PIPELINES_REGISTRY (_discover_pipelines fs base_dir st).2 !! k = Some entry →
    ∃ stem dir,
      file entry = dir +:+ stem +:+ ".py"
      ∧ module entry = "pipelines." +:+ stem
      ∧ endswith (file entry) ".py" = true.
Proof.
  intros fs base_dir st k entry. rewrite discover_pipelines_registry_cases.
  case_decide as Hdir; [|by rewrite lookup_empty].
  intros Hk. apply foldl_register_lookup_Some in Hk as [Hk|Hk];
    [by rewrite lookup_empty in Hk|].
  destruct Hk as (u & obj & pipe_fn & Hin & Hv & Hid & ->).
  pose proof (slice_to_minus3_py _ (valid_unit_py _ _ _ Hv)) as Hstem.
  destruct (path_join_suffix base_dir (fname u)) as [dir Hjoin].
  exists (slice_to_minus3 (fname u)), dir. simpl.
  rewrite Hstem. split; [done|]. split; [done|].
  apply endswith_iff. exists (dir +:+ slice_to_minus3 (fname u)).
  by rewrite string_app_assoc, Hstem.
Qed.

(** X10 on the entry of [math_add] after a scan with failing units. *)
Lemma scanned_entry_file_and_module_agree_witness :
  ∃ stem dir,
    "./pipelines/math_add.py" = dir +:+ stem +:+ ".py"
    ∧ "pipelines.math_add" = "pipelines." +:+ stem
    ∧ endswith "./pipelines/math_add.py" ".py" = true.
Proof.
  apply (scanned_entry_file_and_module_agree
           (fs_with [unit_broken; unit_math_add; unit_helpers]) "./pipelines" (load ∅)
           "math_add"
           (mkEntry "pipelines.math_add" "./pipelines/math_add.py" (handler MathAdd.pipe))).
  reflexivity.
Defined.

(** ** More on the summing handler *)

Section math_add_more.

Implicit Types (d : list (string * value)) (l : list value) (acc : number).

Lemma float_of_int_outcome z : float_of_int z = inl overflow_error ∨ ∃ f, float_of_int z = inr f.
Proof.
  unfold float_of_int.
  destruct (binary_normalize prec emax z 0 false); (by left) || (right; by eexists).
Qed.

Lemma add_outcome a b : add a b = inl overflow_error ∨ ∃ n, add a b = inr n.
Proof.
  destruct a as [x|f], b as [y|g]; simpl; try (right; by eexists).
  - destruct (float_of_int_outcome x) as [->|[f' ->]]; [by left | right; by eexists].
  - destruct (float_of_int_outcome y) as [->|[g' ->]]; [by left | right; by eexists].
Qed.

(** Behind the [isinstance] guard, [sum] raises nothing but
    [OverflowError]. *)
Lemma sum_from_outcome l acc :
  forallb isinstance_int_float l = true →
  sum_from acc l = inl overflow_error ∨ ∃ n, sum_from acc l = inr n.
Proof.
  revert acc. induction l as [|v l IH]; intros acc Hall; simpl; [right; by eexists|].
  simpl in Hall. apply andb_prop in Hall as [Hv Hall].
  destruct (as_number v) as [n|] eqn:Hn; [|by destruct v].
  destruct (add_outcome acc n) as [->|[acc' ->]]; [by left|]. by apply IH.
Qed.

Lemma sum_from_floats l f :
  Forall (λ v, ∃ g, v = PyFloat g) l → ∃ f', sum_from (NFloat f) l = inr (NFloat f').
Proof.
  intros Hall. revert f. induction Hall as [|v l [g ->] _ IH]; intros f; simpl.
  - by eexists.
  - apply IH.
Qed.

Lemma sum_floats l :
  Forall (λ v, ∃ g, v = PyFloat g) l → ∃ n f, sum l = inr n ∧ float n = inr f.
Proof.
  intros Hall. unfold sum. destruct Hall as [|v l [g ->] Hall].
  - by exists (NInt 0), (S754_zero false).
  - change (sum_from (NInt 0) (PyFloat g :: l))
      with (sum_from (NFloat (SFadd prec emax (S754_zero false) g)) l).
    destruct (sum_from_floats l (SFadd prec emax (S754_zero false) g) Hall) as [f' ->].
    by exists (NFloat f'), f'.
Qed.

Lemma sum_from_int_values l a :
  Forall (λ v, ∃ z, as_number v = Some (NInt z)) l →
  sum_from (NInt a) l = inr (NInt (a + foldr Z.add 0 (int_value <$> l))).
Proof.
  intros Hall. apply sum_from_ints.
  induction Hall as [|v l [z Hz] _ IH]; simpl; constructor; [|done].
  unfold int_value. by rewrite Hz.
Qed.

Lemma foldr_add_perm (zs zs' : list Z) :
  zs ≡ₚ zs' → foldr Z.add 0 zs = foldr Z.add 0 zs'.
Proof. induction 1; simpl; lia. Qed.

End math_add_more.

(** X11. On a mapping body, [pipe] of [math_add] has three outcomes and
    no other: the error mapping, a mapping with the single key ["sum"]
    and a float, or [OverflowError]; the [isinstance] check keeps [sum]
    from ever raising [TypeError]. *)
Theorem math_add_outcomes :
  ∀ (d : list (string * value)),
    MathAdd.pipe (PyDict d) = inr MathAdd.error_msg
    ∨ (∃ f, MathAdd.pipe (PyDict d) = inr (PyDict [("sum", PyFloat f)]))
    ∨ MathAdd.pipe (PyDict d) = inl overflow_error.
Proof.
  intros d. rewrite pipe_dict.
  destruct (dict_get d "values" (PyList [])) as [| | | | |l| | |]; try by left.
  destruct (forallb isinstance_int_float l) eqn:Hall; [|by left].
  right. unfold sum.
  destruct (sum_from_outcome l (NInt 0) Hall) as [->|[n ->]]; [by right|].
  simpl. destruct n as [z|f]; simpl.
  - destruct (float_of_int_outcome z) as [->|[f ->]]; [by right | left; by eexists].
  - left. by eexists.
Qed.

(** X12. On a list whose items are all [float], [pipe] of [math_add]
    never raises: it returns a ["sum"] mapping, be the sum finite,
    infinite or NaN. *)
Theorem math_add_floats_never_raise :
  ∀ (l : list value),
    Forall (λ v, ∃ g, v = PyFloat g) l →
    ∃ f, MathAdd.pipe (PyDict [("values", PyList l)]) = inr (PyDict [("sum", PyFloat f)]).
Proof.
  intros l Hall. rewrite pipe_dict. simpl.
  assert (Hinst : forallb isinstance_int_float l = true).
  { apply forallb_forall. intros v Hin. apply list_elem_of_In in Hin.
    rewrite Forall_forall in Hall. by destruct (Hall v Hin) as [g ->]. }
  rewrite Hinst. destruct (sum_floats l Hall) as (n & f & -> & Hf).
  exists f. unfold mbind, result_bind. by rewrite Hf.
Qed.

(** X12 on the list of the largest float taken twice. *)
Lemma math_add_floats_never_raise_witness :
  ∃ f, MathAdd.pipe (PyDict [("values", PyList [PyFloat float_max; PyFloat float_max])])
       = inr (PyDict [("sum", PyFloat f)]).
Proof.
  apply (math_add_floats_never_raise [PyFloat float_max; PyFloat float_max]).
  repeat constructor; by eexists.
Defined.

(** X13. On lists of [int] and [bool] items the order of the values
    does not matter to [pipe] of [math_add]: two lists that are
    permutations of one another give the same outcome. *)
Theorem math_add_int_order_irrelevant :
  ∀ (l l' : list value),
    Forall (λ v, ∃ z, as_number v = Some (NInt z)) l →
    l ≡ₚ l' →
    MathAdd.pipe (PyDict [("values", PyList l)])
    = MathAdd.pipe (PyDict [("values", PyList l')]).
Proof.
  intros l l' Hall Hperm.
  assert (Hall' : Forall (λ v, ∃ z, as_number v = Some (NInt z)) l')
    by (by rewrite <- Hperm).
  assert (Hinst : ∀ k, Forall (λ v, ∃ z, as_number v = Some (NInt z)) k →
                       forallb isinstance_int_float k = true).
  { intros k Hk. apply forallb_forall. intros v Hin. apply list_elem_of_In in Hin.
    rewrite Forall_forall in Hk. destruct (Hk v Hin) as [z Hz]. by destruct v. }
  rewrite !pipe_dict. simpl. rewrite (Hinst l Hall), (Hinst l' Hall'). unfold sum.
  rewrite (sum_from_int_values l 0 Hall), (sum_from_int_values l' 0 Hall').
  by rewrite (foldr_add_perm (int_value <$> l) (int_value <$> l')) by (by rewrite Hperm).
Qed.

(** X13 on [[1, True, 2]] and [[2, 1, True]]. *)
Lemma math_add_int_order_irrelevant_witness :
  MathAdd.pipe (PyDict [("values", PyList [PyInt 1; PyBool true; PyInt 2])])
  = MathAdd.pipe (PyDict [("values", PyList [PyInt 2; PyInt 1; PyBool true])]).
Proof.
  apply (math_add_int_order_irrelevant
           [PyInt 1; PyBool true; PyInt 2] [PyInt 2; PyInt 1; PyBool true]).
  - repeat constructor; by eexists.
  - etrans; [apply Permutation_skip, Permutation_swap | apply Permutation_swap].
Defined.

(** X14. Called with a falsy [body] ([None], the default, or an empty
    dict, list or string, 0, [False]), [pipe] of [math_add] takes the
    body for [{}] and returns [{"sum": 0.0}]; called with a non-empty
    list or string or a non-zero number it raises [AttributeError]. *)
Theorem math_add_falsy_body_is_empty :
  ∀ (body : value),
    (truthy body = false →
     MathAdd.pipe body = inr (PyDict [("sum", PyFloat (S754_zero false))]))
    ∧ (truthy body = true →
       (∀ d, body ≠ PyDict d) → (∀ cls t, body ≠ PyObject cls t) →
       MathAdd.pipe body
       = inl (mkExn "AttributeError"
                ("'" +:+ type_name body +:+ "' object has no attribute 'get'"))).
Proof.
  intros body. split.
  - intros Hfalsy. unfold MathAdd.pipe. by rewrite Hfalsy.
  - intros Htruthy Hdict Hobj. unfold MathAdd.pipe. rewrite Htruthy.
    destruct body as [| | | | | | |d|cls t]; try done.
    by destruct (Hdict d).
Qed.

(** ** The retry helper *)

Section retry.

Import Retry.

Context {A : Type} (call_fn : nat → Fault + A).
Variables (desc : string) (retries : Z) (sleep_s : float64).


(** A loop that runs at all ends inside its body, at a call. *)
Lemma attempts_end_in_call (start remaining : nat) :
  Z.of_nat start + Z.of_nat remaining = retries + 1 →
  (0 < remaining)%nat →
  ∃ k, Z.of_nat k ≤ retries
       ∧ last (attempts call_fn desc retries sleep_s start remaining).1 = Some (Call k)
       ∧ (attempts call_fn desc retries sleep_s start remaining).2
         = match call_fn k with inr a => inr (Some a) | inl e => inl e end.
Proof.
  revert start. induction remaining as [|remaining IH]; intros start Hsum Hpos; [lia|].
  simpl. destruct (call_fn start) as [e|a] eqn:Hcall.
  - destruct ((Z.of_nat start <? retries) && transient e) eqn:Hretry.
    + apply andb_prop in Hretry as [Hlt%Z.ltb_lt _].
      destruct (IH (S start)) as (k & Hk & Hlast & Hout); [lia..|].
      exists k. split; [done|]. split; [|done]. simpl fst.
      destruct (attempts call_fn desc retries sleep_s (S start) remaining).1
        as [|ev rest]; [done|].
      by rewrite !last_cons_cons.
    + exists start. rewrite Hcall. split; [lia|done].
  - exists start. rewrite Hcall. split; [lia|done].
Qed.

Lemma attempts_counts (start remaining : nat) :
  Z.of_nat start + Z.of_nat remaining = retries + 1 →
  let events := (attempts call_fn desc retries sleep_s start remaining).1 in
  (length (List.filter is_call events) ≤ remaining)%nat
  ∧ length (List.filter is_sleep events) = length (List.filter is_warning events)
  ∧ length (List.filter is_call events)
    = match remaining with
      | O => O
      | S _ => S (length (List.filter is_sleep events))
      end.
Proof.
  cbv zeta. revert start. induction remaining as [|remaining IH]; intros start Hsum.
  - simpl. repeat split; lia.
  - simpl. destruct (call_fn start) as [e|a]; [|simpl; repeat split; lia].
    destruct ((Z.of_nat start <? retries) && transient e) eqn:Hretry;
      [|simpl; repeat split; lia].
    apply andb_prop in Hretry as [Hlt%Z.ltb_lt _].
    destruct (IH (S start)) as (Hle & Heq & Hcalls); [lia|].
    remember (attempts call_fn desc retries sleep_s (S start) remaining).1 as rest eqn:Hrest.
    clear Hrest IH. destruct remaining as [|remaining]; [lia|].
    simpl. repeat split; lia.
Qed.

End retry.



(** X16. [retry_jsonrpc] calls [call_fn] at most [retries + 1] times,
    logs one warning per sleep, and when it calls at all it sleeps once
    less than it calls. *)
Theorem retry_calls_bounded :
  ∀ (A : Type) (call_fn : nat → Retry.Fault + A) desc retries sleep_s,
    let events := (Retry.retry_jsonrpc call_fn desc retries sleep_s).1 in
    (length (List.filter is_call events) ≤ Z.to_nat (retries + 1))%nat
    ∧ length (List.filter is_sleep events) = length (List.filter is_warning events)
    ∧ (0 ≤ retries →
       length (List.filter is_call events) = S (length (List.filter is_sleep events))).
Proof.
  intros A call_fn desc retries sleep_s events. unfold events, Retry.retry_jsonrpc.
  destruct (decide (0 ≤ retries)) as [Hpos|Hneg].
  - destruct (attempts_counts call_fn desc retries sleep_s 0 (Z.to_nat (retries + 1)))
      as (Hle & Heq & Hcalls); [lia|].
    split; [done|]. split; [done|]. intros _.
    destruct (Z.to_nat (retries + 1)) eqn:Hn; [lia|done].
  - replace (Z.to_nat (retries + 1)) with O by lia. simpl.
    split; [done|]. split; [done|]. lia.
Qed.

(** X17. [retry_jsonrpc] makes no call at all exactly when [retries]
    is negative: the body of its loop never runs and the function runs
    off its end, without a call, a warning or a sleep. With [retries] at
    least 0 it ends inside the loop, at a call of [call_fn] that is the
    last thing it does: it returns what that call returned or raises
    what that call raised. *)
Theorem retry_without_call_iff_negative :
  ∀ (A : Type) (call_fn : nat → Retry.Fault + A) desc retries sleep_s,
    let run := Retry.retry_jsonrpc call_fn desc retries sleep_s in
    (run.1 = [] ↔ retries < 0)
    ∧ (run.2 = inr None ↔ retries < 0)
    ∧ (0 ≤ retries →
       ∃ k, Z.of_nat k ≤ retries
            ∧ last run.1 = Some (Retry.Call k)
            ∧ run.2 = match call_fn k with inr a => inr (Some a) | inl e => inl e end).
Proof.
  intros A call_fn desc retries sleep_s run.
  assert (Hneg : retries < 0 → run = ([], inr None)).
  { intros Hlt. unfold run, Retry.retry_jsonrpc.
    by replace (Z.to_nat (retries + 1)) with O by lia. }
  assert (Hpos : 0 ≤ retries →
                 ∃ k, Z.of_nat k ≤ retries
                      ∧ last run.1 = Some (Retry.Call k)
                      ∧ run.2 = match call_fn k with
                                | inr a => inr (Some a)
                                | inl e => inl e
                                end).
  { intros Hle. unfold run, Retry.retry_jsonrpc. apply attempts_end_in_call; lia. }
  split; [|split; [|done]].
  - split.
    + intros Hnil. destruct (decide (retries < 0)) as [|Hge]; [done|].
      destruct Hpos as (k & _ & Hlast & _); [lia|]. by rewrite Hnil in Hlast.
    + intros Hlt. by rewrite (Hneg Hlt).
  - split.
    + intros Hnone. destruct (decide (retries < 0)) as [|Hge]; [done|].
      destruct Hpos as (k & _ & _ & Hout); [lia|]. rewrite Hnone in Hout.
      by destruct (call_fn k).
    + intros Hlt. by rewrite (Hneg Hlt).
Qed.

Lemma existsb_elem_of {B} (p : B → bool) (l : list B) :
  existsb p l = true ↔ ∃ x, x ∈ l ∧ p x = true.
Proof.
  rewrite existsb_exists. split; intros (x & Hin & Hp); exists x;
    (split; [by apply list_elem_of_In | done]).
Qed.

(** X18. An exception is transient exactly when its own text mentions
    [notifications/initialized], [JSONRPCMessage] or [TaskGroup], or it
    has an [exceptions] attribute with a member whose text mentions one
    of the first two: [TaskGroup] in the text of a member alone does not
    count. *)
Theorem transient_iff :
  ∀ (e : Retry.Fault),
    Retry.transient e = true
    ↔ (Retry.contains "notifications/initialized" (Retry.fault_str e) = true
       ∨ Retry.contains "JSONRPCMessage" (Retry.fault_str e) = true
       ∨ Retry.contains "TaskGroup" (Retry.fault_str e) = true)
      ∨ (∃ subs s,
           Retry.exceptions e = Some subs ∧ s ∈ subs
           ∧ (Retry.contains "notifications/initialized" s = true
              ∨ Retry.contains "JSONRPCMessage" s = true)).
Proof.
  intros e. unfold Retry.transient.
  destruct (Retry.contains "notifications/initialized" (Retry.fault_str e)) eqn:H1;
    [simpl; split; [intros _|done]; left; by left|].
  destruct (Retry.contains "JSONRPCMessage" (Retry.fault_str e)) eqn:H2;
    [simpl; split; [intros _|done]; left; right; by left|].
  destruct (Retry.contains "TaskGroup" (Retry.fault_str e)) eqn:H3;
    [simpl; split; [intros _|done]; left; right; by right|].
  simpl. destruct (Retry.exceptions e) as [subs|].
  - rewrite existsb_elem_of. split.
    + intros (s & Hin & Hs). right. exists subs, s. split; [done|]. split; [done|].
      by apply orb_prop in Hs.
    + intros [[|[|]]|(subs' & s & [= <-] & Hin & Hs)]; try done.
      exists s. split; [done|]. by destruct Hs as [-> | ->]; [|rewrite orb_true_r].
  - split; [done|]. intros [[|[|]]|(subs' & s & [=] & _)]; done.
Qed.

Example member_taskgroup_not_transient :
  Retry.transient (Retry.mkFault "ExceptionGroup: 1 sub-exception"
                     (Some ["unhandled errors in a TaskGroup"])) = false
  ∧ Retry.transient (Retry.mkFault "unhandled errors in a TaskGroup" None) = true.
Proof. split; reflexivity. Qed.

(** ** The MCP HTTP connector *)

Section connector.

Import Connector.

Variable import_module : string → Exn + PyModule.
Variable version : option string.

Ltac connector_cases :=
  unfold resolve_http_connector, _resolve_alt_http_connector, offers;
  destruct (import_module "mcp.client.streamable_http") as [e1|m1];
  [|destruct (hasattr m1 "connect") eqn:?;
    [|destruct (hasattr m1 "connect_streamable_http") eqn:?;
      [|destruct (hasattr m1 "streamablehttp_client") eqn:?;
        [|destruct (hasattr m1 "create_mcp_http_client") eqn:?]]]];
  (destruct (import_module "mcp.client.http.streamable") as [e2|m2];
   [|destruct (hasattr m2 "connect") eqn:?]);
  (destruct (import_module "mcp.client.http") as [e3|m3];
   [|destruct (hasattr m3 "connect") eqn:?]).

Lemma resolve_raises_iff :
  (∃ err, resolve_http_connector import_module version = inl err)
  ↔ offers import_module "mcp.client.streamable_http" "connect" = false
    ∧ offers import_module "mcp.client.streamable_http" "connect_streamable_http" = false
    ∧ offers import_module "mcp.client.streamable_http" "streamablehttp_client" = false
    ∧ offers import_module "mcp.client.streamable_http" "create_mcp_http_client" = false
    ∧ _resolve_alt_http_connector import_module = None.
Proof.
  connector_cases; simpl;
    (split; [intros [err Herr] | intros (? & ? & ? & ? & ?)]); simplify_eq; eauto 10.
Qed.

Lemma resolve_raises_candidates err :
  resolve_http_connector import_module version = inl err →
  length (candidates err) = 3%nat
  ∧ installed_version err = match version with Some v => v | None => "unknown" end.
Proof. connector_cases; simpl; intros [= <-]; done. Qed.

Lemma alt_None_iff :
  _resolve_alt_http_connector import_module = None
  ↔ offers import_module "mcp.client.http.streamable" "connect" = false
    ∧ offers import_module "mcp.client.http" "connect" = false.
Proof.
  unfold _resolve_alt_http_connector, offers.
  destruct (import_module "mcp.client.http.streamable") as [e2|m2];
    [|destruct (hasattr m2 "connect") eqn:?];
    (destruct (import_module "mcp.client.http") as [e3|m3];
     [|destruct (hasattr m3 "connect") eqn:?]);
    simpl; split; try done; by intros [? ?].
Qed.

Lemma resolved_sound r :
  resolve_http_connector import_module version = inr r →
  ∃ m,
    import_module (owner (connector r)) = inr m
    ∧ Connector.name (connector r) ∈ dir m
    ∧ module_path r = getattr_file m
    ∧ mcp_version r = match version with Some v => v | None => "unknown" end
    ∧ "mcp.client." +:+ connector_name r
      = owner (connector r) +:+ "." +:+ Connector.name (connector r).
Proof.
  unfold resolve_http_connector.
  destruct (import_module "mcp.client.streamable_http") as [e1|m1] eqn:Hm1;
    [|destruct (hasattr m1 "connect") eqn:?;
      [|destruct (hasattr m1 "connect_streamable_http") eqn:?;
        [|destruct (hasattr m1 "streamablehttp_client") eqn:?;
          [|destruct (hasattr m1 "create_mcp_http_client") eqn:?]]]];
    try (intros [= <-]; exists m1; simpl; unfold hasattr in *;
         repeat split; try assumption;
         match goal with
         | H : bool_decide _ = true |- _ => exact (bool_decide_eq_true_1 _ H)
         end);
    (destruct (import_module "mcp.client.http.streamable") as [e2|m2] eqn:Hm2;
     [|destruct (hasattr m2 "connect") eqn:?]);
    try (intros [= <-]; exists m2; simpl; unfold hasattr in *;
         repeat split; try assumption;
         match goal with
         | H : bool_decide _ = true |- _ => exact (bool_decide_eq_true_1 _ H)
         end);
    (destruct (import_module "mcp.client.http") as [e3|m3] eqn:Hm3;
     [|destruct (hasattr m3 "connect") eqn:?]);
    try (intros [= <-]; exists m3; simpl; unfold hasattr in *;
         repeat split; try assumption;
         match goal with
         | H : bool_decide _ = true |- _ => exact (bool_decide_eq_true_1 _ H)
         end);
    done.
Qed.

Lemma resolved_fallback r :
  resolve_http_connector import_module version = inr r →
  (owner (connector r) = "mcp.client.streamable_http"
   ∧ offers import_module "mcp.client.streamable_http" (Connector.name (connector r)) = true)
  ∨ (offers import_module "mcp.client.streamable_http" "connect" = false
     ∧ offers import_module "mcp.client.streamable_http" "connect_streamable_http" = false
     ∧ offers import_module "mcp.client.streamable_http" "streamablehttp_client" = false
     ∧ offers import_module "mcp.client.streamable_http" "create_mcp_http_client" = false
     ∧ _resolve_alt_http_connector import_module = Some (connector r)).
Proof.
  connector_cases; simpl; intros [= <-]; simpl;
    (by left) || (right; repeat split; done).
Qed.

Lemma resolve_prefers_connect r m :
  import_module "mcp.client.streamable_http" = inr m →
  "connect" ∈ dir m →
  resolve_http_connector import_module version = inr r →
  connector r = mkAttr "mcp.client.streamable_http" "connect"
  ∧ connector_name r = "streamable_http.connect".
Proof.
  intros Hm Hin. unfold resolve_http_connector. rewrite Hm.
  unfold hasattr. rewrite bool_decide_eq_true_2 by done. by intros [= <-].
Qed.

End connector.

(** X19. [resolve_http_connector] raises its [ImportError] exactly when
    [mcp.client.streamable_http] offers none of [connect],
    [connect_streamable_http], [streamablehttp_client] and
    [create_mcp_http_client] and [_resolve_alt_http_connector] finds
    nothing; the error then lists three candidates and the version, which
    is ["unknown"] when the package lookup gives none. *)
Theorem resolve_raises_iff_nothing_offered :
  ∀ (import_module : string → Exn + Connector.PyModule) (version : option string),
    ((∃ err, Connector.resolve_http_connector import_module version = inl err)
     ↔ offers import_module "mcp.client.streamable_http" "connect" = false
       ∧ offers import_module "mcp.client.streamable_http" "connect_streamable_http" = false
       ∧ offers import_module "mcp.client.streamable_http" "streamablehttp_client" = false
       ∧ offers import_module "mcp.client.streamable_http" "create_mcp_http_client" = false
       ∧ Connector._resolve_alt_http_connector import_module = None)
    ∧ (∀ err,
         Connector.resolve_http_connector import_module version = inl err →
         length (Connector.candidates err) = 3%nat
         ∧ Connector.installed_version err
           = match version with Some v => v | None => "unknown" end).
Proof.
  intros import_module version. split.
  - apply resolve_raises_iff.
  - apply resolve_raises_candidates.
Qed.

(** X20. What [resolve_http_connector] returns is sound: the connector
    is an attribute that the module it names has, the module path is the
    [__file__] of that module (or ["<unknown>"]), the version is the
    installed one (or ["unknown"]), and the label is the module name
    without [mcp.client.], a dot, and the attribute name. *)
Theorem resolved_connector_is_an_attribute :
  ∀ (import_module : string → Exn + Connector.PyModule) (version : option string) r,
    Connector.resolve_http_connector import_module version = inr r →
    ∃ m,
      import_module (Connector.owner (Connector.connector r)) = inr m
      ∧ Connector.name (Connector.connector r) ∈ Connector.dir m
      ∧ Connector.module_path r = Connector.getattr_file m
      ∧ Connector.mcp_version r = match version with Some v => v | None => "unknown" end
      ∧ "mcp.client." +:+ Connector.connector_name r
        = Connector.owner (Connector.connector r) +:+ "."
            +:+ Connector.name (Connector.connector r).
Proof. intros import_module version r. apply resolved_sound. Qed.

(** X20 on an installation that has [streamablehttp_client] only. *)
Lemma resolved_connector_is_an_attribute_witness :
  ∃ m,
    import_streamablehttp_client "mcp.client.streamable_http" = inr m
    ∧ "streamablehttp_client" ∈ Connector.dir m
    ∧ "/site-packages/mcp/client/streamable_http.py" = Connector.getattr_file m
    ∧ "unknown" = "unknown"
    ∧ "mcp.client." +:+ "streamable_http.streamablehttp_client"
      = "mcp.client.streamable_http" +:+ "." +:+ "streamablehttp_client".
Proof.
  apply (resolved_connector_is_an_attribute import_streamablehttp_client None
           (Connector.mkResolved
              (Connector.mkAttr "mcp.client.streamable_http" "streamablehttp_client")
              "streamable_http.streamablehttp_client"
              "/site-packages/mcp/client/streamable_http.py" "unknown")).
  reflexivity.
Defined.

(** X21. [mcp.client.streamable_http] comes first: when it has [connect]
    that is the connector; what [resolve_http_connector] returns is
    either an attribute of that module or, when the module offers none of
    its four names, exactly what [_resolve_alt_http_connector] returns,
    which is [None] only when neither [mcp.client.http.streamable] nor
    [mcp.client.http] has [connect]. *)
Theorem resolve_falls_back_to_alt_connector :
  ∀ (import_module : string → Exn + Connector.PyModule) (version : option string),
    (∀ r,
       Connector.resolve_http_connector import_module version = inr r →
       (Connector.owner (Connector.connector r) = "mcp.client.streamable_http"
        ∧ offers import_module "mcp.client.streamable_http"
            (Connector.name (Connector.connector r)) = true)
       ∨ (offers import_module "mcp.client.streamable_http" "connect" = false
          ∧ offers import_module "mcp.client.streamable_http" "connect_streamable_http" = false
          ∧ offers import_module "mcp.client.streamable_http" "streamablehttp_client" = false
          ∧ offers import_module "mcp.client.streamable_http" "create_mcp_http_client" = false
          ∧ Connector._resolve_alt_http_connector import_module
            = Some (Connector.connector r)))
    ∧ (∀ r m,
         import_module "mcp.client.streamable_http" = inr m →
         "connect" ∈ Connector.dir m →
         Connector.resolve_http_connector import_module version = inr r →
         Connector.connector r = Connector.mkAttr "mcp.client.streamable_http" "connect"
         ∧ Connector.connector_name r = "streamable_http.connect")
    ∧ (Connector._resolve_alt_http_connector import_module = None
       ↔ offers import_module "mcp.client.http.streamable" "connect" = false
         ∧ offers import_module "mcp.client.http" "connect" = false).
Proof.
  intros import_module version. split; [|split].
  - intros r. apply resolved_fallback.
  - intros r m. apply resolve_prefers_connect.
  - apply alt_None_iff.
Qed.

(** ** Route paths *)

Section routes.

Import Config.

Implicit Types (s x p suffix : string).

Lemma string_app_slash_ne_nil x : x +:+ "/" ≠ "".
Proof. by destruct x. Qed.

Lemma rstrip_slash_no_trailing s x : rstrip_slash s ≠ x +:+ "/".
Proof.
  revert x. induction s as [|c s IH]; intros x; simpl.
  - intros Heq. by apply (string_app_slash_ne_nil x).
  - destruct (rstrip_slash s) as [|d rest] eqn:Hrest.
    + destruct (Ascii.eqb_spec c "/") as [->|Hc].
      * intros Heq. by apply (string_app_slash_ne_nil x).
      * destruct x as [|c' x']; [intros [= ->]; done|].
        rewrite string_app_cons. intros [= _ Heq].
        by apply (string_app_slash_ne_nil x').
    + destruct x as [|c' x']; [done|].
      rewrite string_app_cons. intros [= _ Heq]. by apply (IH x').
Qed.

Lemma rstrip_slash_app_slash s : rstrip_slash (s +:+ "/") = rstrip_slash s.
Proof.
  induction s as [|c s IH]; [done|].
  rewrite string_app_cons. simpl. by rewrite IH.
Qed.

Lemma endswith_rstrip_slash s : endswith (rstrip_slash s) "/" = false.
Proof.
  apply not_true_is_false. intros [x Hx]%endswith_iff.
  by apply (rstrip_slash_no_trailing s x).
Qed.

End routes.

(** X22. The path expression of the routes other than the call route,
    [f"{PATH_PREFIX.rstrip('/')}<suffix>" if PATH_PREFIX != "/" else
    "<suffix>"], and the one of the listing route, which tests
    [PATH_PREFIX] the other way round, evaluate to a prefix followed by
    the route's own path, where the prefix never ends in a slash, so a
    path such as [/pipelines] is joined to it by exactly one slash.
    Slashes at the end of [PATH_PREFIX] do not count in these
    expressions: a prefix and the same prefix with one more slash give
    the same value, and the empty prefix gives the bare path, as [/]
    and the unset variable do. *)
Theorem route_prefix_has_no_trailing_slash :
  ∀ (PATH_PREFIX suffix : string),
    (∃ prefix,
       Config.route PATH_PREFIX suffix = prefix +:+ suffix
       ∧ endswith prefix "/" = false
       ∧ Config.route_list PATH_PREFIX = prefix +:+ "/pipelines"
       ∧ Config.docs_url PATH_PREFIX = prefix +:+ "/docs"
       ∧ Config.openapi_url PATH_PREFIX = prefix +:+ "/openapi.json")
    ∧ Config.route (PATH_PREFIX +:+ "/") suffix = Config.route PATH_PREFIX suffix
    ∧ Config.route_list (PATH_PREFIX +:+ "/") = Config.route_list PATH_PREFIX
    ∧ Config.route "" suffix = suffix
    ∧ Config.route "/" suffix = suffix
    ∧ (∀ environ, environ !! "PATH_PREFIX" = None →
                  Config.route (Config.PATH_PREFIX environ) suffix = suffix
                  ∧ Config.route_list (Config.PATH_PREFIX environ) = "/pipelines").
Proof.
  intros p suffix.
  assert (Hslash : String.eqb (p +:+ "/") "/" = String.eqb p "").
  { destruct p as [|c p]; [done|]. rewrite string_app_cons.
    destruct (String.eqb_spec (String c (p +:+ "/")) "/") as [Heq|Hne].
    - injection Heq as _ Heq. by destruct p.
    - done. }
  split; [|split; [|split; [|split; [done|split; [done|]]]]].
  - unfold Config.docs_url, Config.openapi_url, Config.route, Config.route_list.
    destruct (String.eqb p "/"); simpl.
    + by exists "".
    + exists (Config.rstrip_slash p). split; [done|]. split; [|done].
      apply endswith_rstrip_slash.
  - unfold Config.route. rewrite Hslash, rstrip_slash_app_slash.
    destruct (String.eqb_spec p "") as [->|_]; [done|].
    by destruct (String.eqb_spec p "/") as [->|_].
  - unfold Config.route_list. rewrite Hslash, rstrip_slash_app_slash.
    destruct (String.eqb_spec p "") as [->|_]; [done|].
    by destruct (String.eqb_spec p "/") as [->|_].
  - intros environ Hunset. unfold Config.PATH_PREFIX, getenv. by rewrite Hunset.
Qed.


(** ** CORS origins *)

Section cors.

Import Config.

Variable isspace : ascii → bool.

Implicit Types (s o piece : string) (c : ascii).

#[local] Abbreviation chars := String.list_ascii_of_string.

Lemma lstrip_head s :
  lstrip isspace s = "" ∨ ∃ c t, lstrip isspace s = String c t ∧ isspace c = false.
Proof.
  induction s as [|c s IH]; simpl; [by left|].
  destruct (isspace c) eqn:Hc; [done|]. right. by exists c, s.
Qed.

Lemma rstrip_head c t :
  isspace c = false → ∃ r, rstrip isspace (String c t) = String c r.
Proof.
  intros Hc. simpl. destruct (rstrip isspace t); [|by eexists].
  rewrite Hc. by eexists.
Qed.

Lemma rstrip_idem s : rstrip isspace (rstrip isspace s) = rstrip isspace s.
Proof.
  induction s as [|c s IH]; simpl; [done|].
  destruct (rstrip isspace s) as [|d r] eqn:Hr.
  - destruct (isspace c) eqn:Hc; simpl; [done|]. by rewrite Hc.
  - change (rstrip isspace (String c (String d r)))
      with (match rstrip isspace (String d r) with
            | "" => if isspace c then "" else String c ""
            | rest => String c rest
            end).
    by rewrite IH.
Qed.

Lemma strip_idem s : strip isspace (strip isspace s) = strip isspace s.
Proof.
  unfold strip.
  assert (Hl : lstrip isspace (rstrip isspace (lstrip isspace s))
               = rstrip isspace (lstrip isspace s)).
  { destruct (lstrip_head s) as [->|(c & t & -> & Hc)]; [done|].
    destruct (rstrip_head c t Hc) as [r ->]. simpl. by rewrite Hc. }
  by rewrite Hl, rstrip_idem.
Qed.

Lemma lstrip_chars s c : c ∈ chars (lstrip isspace s) → c ∈ chars s.
Proof.
  induction s as [|d s IH]; simpl; [done|].
  destruct (isspace d); [|done]. intros Hin. right. by apply IH.
Qed.

Lemma rstrip_chars s c : c ∈ chars (rstrip isspace s) → c ∈ chars s.
Proof.
  revert c. induction s as [|d s IH]; intros c; simpl; [done|].
  destruct (rstrip isspace s) as [|e r] eqn:Hr.
  - destruct (isspace d); simpl; [by intros ?%elem_of_nil|].
    intros [->|?%elem_of_nil]%elem_of_cons; [by left|done].
  - intros [->|Hin]%elem_of_cons; [by left|]. right. by apply IH.
Qed.

Lemma strip_chars s c : c ∈ chars (strip isspace s) → c ∈ chars s.
Proof. unfold strip. intros Hin. by apply lstrip_chars, rstrip_chars. Qed.

Lemma split_comma_not_nil s : split_comma s ≠ [].
Proof.
  destruct s as [|c s]; simpl; [done|].
  destruct (Ascii.eqb c ","); [done|]. by destruct (split_comma s).
Qed.

(** The pieces of a split hold characters of the string, no comma among
    them. *)
Lemma split_comma_chars s piece c :
  piece ∈ split_comma s → c ∈ chars piece → c ∈ chars s ∧ c ≠ ","%char.
Proof.
  revert piece. induction s as [|d s IH]; intros piece; simpl.
  - intros ->%list_elem_of_singleton. by intros ?%elem_of_nil.
  - destruct (Ascii.eqb_spec d ",") as [->|Hd].
    + intros [->|Hin]%elem_of_cons Hc; [by apply elem_of_nil in Hc|].
      destruct (IH _ Hin Hc) as [? ?]. split; [by right|done].
    + destruct (split_comma s) as [|first pieces] eqn:Hs;
        [by destruct (split_comma_not_nil s)|].
      intros [->|Hin]%elem_of_cons Hc.
      * simpl in Hc. apply elem_of_cons in Hc as [->|Hc]; [split; [by left|done]|].
        destruct (IH first (list_elem_of_here _ _) Hc) as [? ?]. split; [by right|done].
      * destruct (IH piece (list_elem_of_further _ _ _ Hin) Hc) as [? ?].
        split; [by right|done].
Qed.

Lemma split_comma_no_comma o : ","%char ∉ chars o → split_comma o = [o].
Proof.
  induction o as [|c o IH]; simpl; [done|]. intros Hno.
  destruct (Ascii.eqb_spec c ",") as [->|_]; [destruct Hno; by left|].
  rewrite IH; [done|]. intros Hin. apply Hno. by right.
Qed.

Lemma split_comma_app o s :
  ","%char ∉ chars o → split_comma (o +:+ "," +:+ s) = o :: split_comma s.
Proof.
  induction o as [|c o IH]; intros Hno; [done|].
  rewrite string_app_cons. simpl.
  destruct (Ascii.eqb_spec c ",") as [->|_]; [destruct Hno; by left|].
  rewrite IH; [done|]. intros Hin. apply Hno. by right.
Qed.

Lemma split_comma_join (origins : list string) :
  origins ≠ [] → Forall (λ o, ","%char ∉ chars o) origins →
  split_comma (join_comma origins) = origins.
Proof.
  intros Hne Hall. induction Hall as [|o rest Ho Hrest IH]; [done|].
  destruct rest as [|o' rest]; [by apply split_comma_no_comma|].
  change (join_comma (o :: o' :: rest)) with (o +:+ "," +:+ join_comma (o' :: rest)).
  rewrite split_comma_app by done. by rewrite IH.
Qed.

Lemma lstrip_all_space s : (∀ c, c ∈ chars s → isspace c = true) → lstrip isspace s = "".
Proof.
  induction s as [|c s IH]; simpl; [done|]. intros Hall.
  rewrite (Hall c) by (by left). apply IH. intros d Hd. apply Hall. by right.
Qed.

End cors.

Lemma list_filter_nil {B} (p : B → bool) (l : list B) :
  (∀ x, x ∈ l → p x = false) → List.filter p l = [].
Proof.
  induction l as [|x l IH]; simpl; [done|]. intros Hall.
  rewrite (Hall x) by (by left). apply IH. intros y Hy. apply Hall. by right.
Qed.

Lemma list_filter_all {B} (p : B → bool) (l : list B) :
  (∀ x, x ∈ l → p x = true) → List.filter p l = l.
Proof.
  induction l as [|x l IH]; simpl; [done|]. intros Hall.
  rewrite (Hall x) by (by left). f_equal. apply IH. intros y Hy. apply Hall. by right.
Qed.

(** X24. Whatever characters count as whitespace, every origin in
    [CORS_ALLOWED_ORIGINS] is non-empty, has no whitespace at either end
    (stripping it again changes nothing) and holds no comma. *)
Theorem cors_origins_are_clean :
  ∀ (isspace : ascii → bool) (environ : gmap string string) (o : string),
    o ∈ Config.CORS_ALLOWED_ORIGINS isspace environ →
    o ≠ "" ∧ Config.strip isspace o = o ∧ ","%char ∉ String.list_ascii_of_string o.
Proof.
  intros isspace environ o. unfold Config.CORS_ALLOWED_ORIGINS.
  intros (piece & -> & Hin)%list_elem_of_fmap.
  apply list_elem_of_In, filter_In in Hin as [Hin%list_elem_of_In Hkeep].
  split; [by apply truthy_str_iff|]. split; [apply strip_idem|].
  intros Hc%strip_chars. by destruct (split_comma_chars _ _ _ Hin Hc).
Qed.

(** X24 on the setting [" https://a.example , ,https://b.example"]. *)
Lemma cors_origins_are_clean_witness :
  "https://a.example" ≠ ""
  ∧ Config.strip latin1_isspace "https://a.example" = "https://a.example"
  ∧ ","%char ∉ String.list_ascii_of_string "https://a.example".
Proof.
  apply (cors_origins_are_clean latin1_isspace
           {["CORS_ALLOWED_ORIGINS" := " https://a.example , ,https://b.example"]}).
  assert (Config.CORS_ALLOWED_ORIGINS latin1_isspace
            {["CORS_ALLOWED_ORIGINS" := " https://a.example , ,https://b.example"]}
          = ["https://a.example"; "https://b.example"]) as -> by (vm_compute; reflexivity).
  by left.
Defined.

(** X25. Parsing undoes joining: for origins that are non-empty, hold no
    comma and have no whitespace at either end, setting the variable to
    the origins joined by commas gives back exactly those origins, in
    order. *)
Theorem cors_origins_round_trip :
  ∀ (isspace : ascii → bool) (origins : list string),
    Forall (λ o, o ≠ "" ∧ Config.strip isspace o = o
                 ∧ ","%char ∉ String.list_ascii_of_string o) origins →
    Config.CORS_ALLOWED_ORIGINS isspace {["CORS_ALLOWED_ORIGINS" := join_comma origins]}
    = origins.
Proof.
  intros isspace origins Hall. unfold Config.CORS_ALLOWED_ORIGINS, getenv.
  rewrite lookup_singleton_eq.
  destruct origins as [|o origins]; [done|].
  rewrite split_comma_join; [|done|].
  - rewrite list_filter_all.
    + induction Hall as [|x l (_ & Hx & _) _ IH]; [done|].
      rewrite fmap_cons, Hx. by f_equal.
    + intros x Hx. rewrite Forall_forall in Hall.
      destruct (Hall x Hx) as (Hne & -> & _). by apply truthy_str_iff.
  - eapply Forall_impl; [done|]. by intros x (_ & _ & ?).
Qed.

(** X25 on two origins. *)
Lemma cors_origins_round_trip_witness :
  Config.CORS_ALLOWED_ORIGINS latin1_isspace
    {["CORS_ALLOWED_ORIGINS" := join_comma ["https://a.example"; "https://b.example"]]}
  = ["https://a.example"; "https://b.example"].
Proof.
  apply (cors_origins_round_trip latin1_isspace ["https://a.example"; "https://b.example"]).
  assert (Hclean : ∀ o, o ≠ "" → Config.strip latin1_isspace o = o →
                        bool_decide (","%char ∉ String.list_ascii_of_string o) = true →
                        o ≠ "" ∧ Config.strip latin1_isspace o = o
                        ∧ ","%char ∉ String.list_ascii_of_string o).
  { intros o ? ? Hc. repeat split; try done. by apply bool_decide_eq_true_1 in Hc. }
  constructor; [apply Hclean; [done|by vm_compute..]|].
  constructor; [apply Hclean; [done|by vm_compute..]|].
  constructor.
Defined.

(** X26. A setting made of commas and whitespace only, the empty and
    the unset one among them, gives no origin, and [create_app] then adds
    no CORS middleware. *)
Theorem blank_cors_setting_adds_no_middleware :
  ∀ (isspace : ascii → bool) (environ : gmap string string),
    (∀ c, c ∈ String.list_ascii_of_string (getenv environ "CORS_ALLOWED_ORIGINS" "") →
          c = ","%char ∨ isspace c = true) →
    Config.CORS_ALLOWED_ORIGINS isspace environ = []
    ∧ Config.cors_middleware isspace environ = None.
Proof.
  intros isspace environ Hblank.
  assert (Hnil : Config.CORS_ALLOWED_ORIGINS isspace environ = []).
  { unfold Config.CORS_ALLOWED_ORIGINS. rewrite list_filter_nil; [done|].
    intros piece Hin. unfold Config.strip. rewrite lstrip_all_space; [done|].
    intros c Hc. destruct (split_comma_chars _ _ _ Hin Hc) as [Hraw Hne].
    by destruct (Hblank c Hraw). }
  split; [done|]. unfold Config.cors_middleware. by rewrite Hnil.
Qed.

(** X26 with the variable unset. *)
Lemma blank_cors_setting_adds_no_middleware_witness :
  Config.CORS_ALLOWED_ORIGINS latin1_isspace ∅ = []
  ∧ Config.cors_middleware latin1_isspace ∅ = None.
Proof.
  apply (blank_cors_setting_adds_no_middleware latin1_isspace ∅).
  intros c Hc. by apply elem_of_nil in Hc.
Defined.

(** ** The listing of pipeline ids *)

Section pipeline_ids.

Import PipelineIds.

Implicit Types (p x y root rest : string) (sep c : ascii).

Lemma after_last_None sep p : after_last sep p = None ↔ has_char sep p = false.
Proof.
  induction p as [|c p IH]; simpl; [done|].
  destruct (after_last sep p) as [rest|].
  - split; [done|]. intros [_ Hp]%orb_false_elim. by apply IH in Hp.
  - destruct (Ascii.eqb c sep); simpl; [done|]. split; [intros _; by apply IH|done].
Qed.

Lemma after_last_no_sep sep p rest : after_last sep p = Some rest → has_char sep rest = false.
Proof.
  induction p as [|c p IH]; simpl; [done|].
  destruct (after_last sep p) as [rest'|] eqn:Hp.
  - intros [= <-]. by apply IH.
  - destruct (Ascii.eqb c sep); [|done]. intros [= <-]. by apply after_last_None.
Qed.

Lemma basename_no_slash p : has_char "/" (basename p) = false.
Proof.
  unfold basename. destruct (after_last "/" p) as [rest|] eqn:Hp.
  - by eapply after_last_no_sep.
  - by apply after_last_None.
Qed.

Lemma before_last_chars sep c p root :
  before_last sep p = Some root → has_char c root = true → has_char c p = true.
Proof.
  revert root. induction p as [|d p IH]; intros root; simpl; [done|].
  destruct (before_last sep p) as [root'|].
  - intros [= <-]. simpl. intros [->|Hc]%orb_prop; [done|].
    rewrite (IH root') by done. apply orb_true_r.
  - destruct (Ascii.eqb d sep); [|done]. by intros [= <-].
Qed.

Lemma splitext_root_chars c p : has_char c (splitext_root p) = true → has_char c p = true.
Proof.
  unfold splitext_root. destruct (before_last "." p) as [root|] eqn:Hroot; [|done].
  destruct (after_last "." p) as [ext|]; [|done].
  destruct (has_char "/" ext); [done|]. destruct (all_dots (basename root)); [done|].
  by apply (before_last_chars "."%char).
Qed.

Lemma after_last_app sep x y :
  has_char sep y = false → after_last sep (x +:+ String sep y) = Some y.
Proof.
  intros Hy. induction x as [|c x IH].
  - rewrite string_app_nil_l. simpl.
    apply after_last_None in Hy. by rewrite Hy, Ascii.eqb_refl.
  - rewrite string_app_cons. simpl. by rewrite IH.
Qed.

Lemma before_last_app sep x y :
  has_char sep y = false → before_last sep (x +:+ String sep y) = Some x.
Proof.
  intros Hy. assert (Hnone : before_last sep y = None).
  { clear x. induction y as [|c y IH]; simpl in *; [done|].
    apply orb_false_elim in Hy as [Hc Hy]. by rewrite IH, Hc. }
  induction x as [|c x IH].
  - rewrite string_app_nil_l. simpl. by rewrite Hnone, Ascii.eqb_refl.
  - rewrite string_app_cons. simpl. by rewrite IH.
Qed.

Lemma all_dots_false_ne stem : all_dots stem = false → stem ≠ "".
Proof. by intros Hd ->. Qed.

(** The id of [<dir>/<stem>.json]. *)
Lemma json_path_id (dir stem : string) :
  has_char "/" stem = false → all_dots stem = false →
  splitext_root (basename (dir +:+ "/" +:+ stem +:+ ".json")) = stem.
Proof.
  intros Hslash Hdots.
  assert (Hfile : has_char "/" (stem +:+ ".json") = false).
  { clear Hdots. induction stem as [|c stem IH]; [done|].
    rewrite string_app_cons. simpl in *.
    apply orb_false_elim in Hslash as [-> Hslash]. by apply IH. }
  unfold basename.
  change (dir +:+ "/" +:+ stem +:+ ".json") with (dir +:+ String "/" (stem +:+ ".json")).
  rewrite (after_last_app "/" dir _ Hfile).
  unfold splitext_root.
  change (stem +:+ ".json") with (stem +:+ String "." "json").
  rewrite (before_last_app "." stem "json" eq_refl), (after_last_app "." stem "json" eq_refl).
  simpl has_char. cbv iota.
  unfold basename. apply after_last_None in Hslash. by rewrite Hslash, Hdots.
Qed.

End pipeline_ids.

(** X27. [_discover_pipeline_ids] never raises and returns an ascending
    list; each id in it is a non-empty string without a slash, the
    [splitext] root of the base name of a path that [glob] returned; when
    [glob] raises the list is empty. *)
Theorem pipeline_ids_sorted_and_clean :
  ∀ (environ : gmap string string) (glob : string → result (list string)),
    let ids := PipelineIds._discover_pipeline_ids environ glob in
    let pattern := path_join (getenv environ "PIPELINES_DIR" "./pipelines") "*.json" in
    StronglySorted String.le ids
    ∧ (∀ id, id ∈ ids →
             id ≠ "" ∧ PipelineIds.has_char "/" id = false
             ∧ ∃ paths p, glob pattern = inr paths ∧ p ∈ paths
                          ∧ id = PipelineIds.splitext_root (PipelineIds.basename p))
    ∧ (∀ e, glob pattern = inl e → ids = []).
Proof.
  intros environ glob ids pattern. unfold ids, PipelineIds._discover_pipeline_ids.
  fold pattern. split; [apply StronglySorted_sorted|]. split.
  - intros id Hin. rewrite elem_of_sorted in Hin.
    destruct (glob pattern) as [e|paths]; [by apply elem_of_nil in Hin|].
    apply list_elem_of_omap in Hin as (p & Hp & Hid).
    destruct (truthy (PyStr (PipelineIds.splitext_root (PipelineIds.basename p)))) eqn:Ht;
      [|done].
    injection Hid as <-. split; [by apply truthy_str_iff|]. split.
    + apply not_true_is_false. intros Hc%splitext_root_chars.
      by rewrite basename_no_slash in Hc.
    + by exists paths, p.
  - intros e ->. reflexivity.
Qed.

(** X28. For [.json] files, the id is the file name without its
    extension: when [glob] returns the paths [<dir>/<stem>.json] for
    stems that hold no slash and are not made of dots only,
    [_discover_pipeline_ids] returns exactly those stems, sorted. *)
Theorem pipeline_ids_are_json_stems :
  ∀ (environ : gmap string string) (glob : string → result (list string))
    (dir : string) (stems : list string),
    glob (path_join (getenv environ "PIPELINES_DIR" "./pipelines") "*.json")
    = inr ((λ stem, dir +:+ "/" +:+ stem +:+ ".json") <$> stems) →
    Forall (λ stem, PipelineIds.has_char "/" stem = false
                    ∧ PipelineIds.all_dots stem = false) stems →
    PipelineIds._discover_pipeline_ids environ glob = sorted stems.
Proof.
  intros environ glob dir stems Hglob Hall.
  unfold PipelineIds._discover_pipeline_ids. rewrite Hglob. f_equal. clear Hglob.
  induction Hall as [|stem stems [Hslash Hdots] _ IH]; [done|].
  rewrite fmap_cons. simpl. rewrite (json_path_id dir stem Hslash Hdots).
  pose proof (all_dots_false_ne _ Hdots) as Hne. apply truthy_str_iff in Hne.
  simpl in Hne. rewrite Hne. by f_equal.
Qed.

(** X28 on a directory with [sum.json] and [echo.v2.json]. *)
Lemma pipeline_ids_are_json_stems_witness :
  PipelineIds._discover_pipeline_ids ∅
    (λ _, inr ["./pipelines/sum.json"; "./pipelines/echo.v2.json"])
  = sorted ["sum"; "echo.v2"].
Proof.
  apply (pipeline_ids_are_json_stems ∅
           (λ _, inr ["./pipelines/sum.json"; "./pipelines/echo.v2.json"])
           "./pipelines" ["sum"; "echo.v2"]).
  - reflexivity.
  - repeat constructor.
Defined.

(** ** The time handler *)

Section time_pipe.

Import TimePipe.

Lemma replace_utc_nil fuel : replace_utc fuel "" = "".
Proof. by destruct fuel. Qed.

#[local] Arguments ascii_dec : simpl never.

Lemma replace_utc_suffix (stem : string) fuel :
  PipelineIds.has_char "+" stem = false →
  (String.length stem < fuel)%nat →
  replace_utc fuel (stem +:+ "+00:00") = stem +:+ "Z".
Proof.
  revert fuel. induction stem as [|c stem IH]; intros fuel Hplus Hfuel.
  - destruct fuel as [|fuel]; [simpl in Hfuel; lia|].
    rewrite !string_app_nil_l. simpl. by rewrite replace_utc_nil.
  - destruct fuel as [|fuel]; [simpl in Hfuel; lia|].
    simpl in Hplus. apply orb_false_elim in Hplus as [Hc Hplus].
    rewrite !string_app_cons. simpl.
    destruct (ascii_dec "+" c) as [<-|_]; [done|].
    rewrite IH by (done || (simpl in Hfuel; lia)). done.
Qed.

End time_pipe.

(** X29. [pipe] of the time handler never raises and returns a mapping
    with a ["time"] string; the mapping has an ["echo"] entry exactly
    when [body] is a dict with one, holding the very same value, and it
    has no other key: nothing else of the body is copied. *)
Theorem time_pipe_echo_passthrough :
  ∀ (now_iso : string) (body : value),
    ∃ t out,
      TimePipe.pipe now_iso body = inr (PyDict out)
      ∧ dict_lookup out "time" = Some (PyStr t)
      ∧ dict_lookup out "echo"
        = match body with PyDict d => dict_lookup d "echo" | _ => None end
      ∧ (∀ k, k ≠ "time" → k ≠ "echo" → dict_lookup out k = None).
Proof.
  intros now_iso body. unfold TimePipe.pipe.
  set (t := if endswith now_iso "+00:00" then _ else _).
  assert (Hother : ∀ k v, k ≠ "time" → k ≠ "echo" →
                          dict_lookup [("time", PyStr t); ("echo", v)] k = None
                          ∧ dict_lookup [("time", PyStr t)] k = None).
  { intros k v Ht He.
    assert (Ht' : String.eqb "time" k = false) by (by apply String.eqb_neq).
    assert (He' : String.eqb "echo" k = false) by (by apply String.eqb_neq).
    cbn [dict_lookup]. by rewrite Ht', He'. }
  exists t.
  assert (Hplain : ∃ out : list (string * value),
            (inr (PyDict [("time", PyStr t)]) : result value) = inr (PyDict out)
            ∧ dict_lookup out "time" = Some (PyStr t)
            ∧ dict_lookup out "echo" = None
            ∧ (∀ k, k ≠ "time" → k ≠ "echo" → dict_lookup out k = None)).
  { exists [("time", PyStr t)]. repeat split. intros k ? ?. by apply (Hother k PyNone). }
  destruct body as [| | | | | | |d|]; try exact Hplain.
  destruct (dict_lookup d "echo") as [v|] eqn:Hecho; [|exact Hplain].
  exists [("time", PyStr t); ("echo", v)]. repeat split.
  intros k ? ?. by apply (Hother k v).
Qed.

(** X30. The ["time"] string of the time handler is the ISO text of
    the clock with a final [+00:00] turned into [Z]: for a text that is a
    part without [+] followed by [+00:00], as [isoformat()] gives for a
    UTC time, it is that part followed by [Z]; a text that does not end
    in [+00:00] is returned as it is. *)
Theorem time_pipe_utc_offset_becomes_z :
  ∀ (now_iso : string) (body : value),
    (∀ stem,
       now_iso = stem +:+ "+00:00" → PipelineIds.has_char "+" stem = false →
       ∃ out, TimePipe.pipe now_iso body = inr (PyDict (("time", PyStr (stem +:+ "Z")) :: out)))
    ∧ (endswith now_iso "+00:00" = false →
       ∃ out, TimePipe.pipe now_iso body = inr (PyDict (("time", PyStr now_iso) :: out))).
Proof.
  intros now_iso body.
  assert (Hshape : ∀ t,
            (if endswith now_iso "+00:00"
             then TimePipe.replace_utc (S (String.length now_iso)) now_iso else now_iso) = t →
            ∃ out, TimePipe.pipe now_iso body = inr (PyDict (("time", PyStr t) :: out))).
  { intros t Ht. unfold TimePipe.pipe. rewrite Ht.
    destruct body as [| | | | | | |d|]; try by exists [].
    destruct (dict_lookup d "echo") as [v|]; [by exists [("echo", v)] | by exists []]. }
  split.
  - intros stem -> Hplus. apply Hshape.
    assert (endswith (stem +:+ "+00:00") "+00:00" = true) as ->
      by (apply endswith_iff; by exists stem).
    apply replace_utc_suffix; [done|]. rewrite string_length_app. simpl. lia.
  - intros Hno. apply Hshape. by rewrite Hno.
Qed.

Example time_pipe_2025 :
  TimePipe.pipe "2025-08-22T17:35:12.250000+00:00" (PyDict [("echo", PyInt 7); ("x", PyNone)])
  = inr (PyDict [("time", PyStr "2025-08-22T17:35:12.250000Z"); ("echo", PyInt 7)]).
Proof. vm_compute. reflexivity. Qed.
